(** * The congratulation sender of bot_women_day: registry, job runner, command processors

    A shallow embedding of [src/logic/sender.py] (class
    [SenderCongratulationsMessage]) and the properties its specification
    states about it.

    The Python code is asynchronous. Every coroutine of the class runs on one
    event loop, and control changes hands only at an [await]. The embedding
    follows that granularity: one command processor call, and one iteration of
    a job runner (from the top of its [while True] to the [asyncio.sleep] it
    ends with), are single steps over an explicit program state. An iteration
    of a runner is also given cut at the three awaits inside [_send], so that
    a command can be processed while a runner waits there; the whole
    iteration is shown to be its parts one after the other. Exceptions are
    values of the result, calls to the outside world (transport, content
    provider, logger, sleep) are recorded as events in the order they are
    made. *)

From Stdlib Require Import ZArith.
From Stdlib.Strings Require Import Byte Ascii String.
From stdpp Require Import gmap strings list fin_maps.

Set Warnings "-register-all".

Open Scope Z_scope.
Open Scope string_scope.
Open Scope list_scope.

(** ** Python values *)

(** The dynamically typed values the code passes around: what [json.loads]
    returns, what a dataclass field may hold, and [PObj] for any other object
    (a function, a class, a configuration entry), named by what it is. A float
    is kept as its literal; it is a number, finite or infinite (the program
    has no way to a not-a-number). *)
Inductive pyval : Type :=
| PNone
| PBool (b : bool)
| PInt (n : Z)
| PFloat (literal : string)
| PStr (s : string)
| PList (items : list pyval)
| PDict (items : list (string * pyval))
| PObj (what : string).

Definition bytes := list byte.

(** The exceptions the code raises, catches or lets through. [OtherException]
    is any failure of an external collaborator (a subclass of [Exception]). *)
Inductive exn : Type :=
| NameError (name : string)
| KeyError
| TypeError
| ValueError
| JSONDecodeError
| StopIteration
| CancelledError
| OverflowError
| RecursionError
| OtherException (origin : string).

Inductive result (A : Type) : Type :=
| Ok (a : A)
| Raise (e : exn).
Arguments Ok {A} a.
Arguments Raise {A} e.

(** ** Data model *)

Abbreviation ChatID := string.

(** [@dataclass class SenderJob]: the field annotations are not enforced at
    run time, [repeat_delay] holds whatever was stored. *)
Record SenderJob : Type := mkSenderJob {
  repeat_delay : pyval;
  names : list pyval
}.

Definition STANDARD_REPLAY_DELAY : string := "15m".

(** Modelled from the spec: [src.models] is not part of the sources. The
    polling command is a tagged variant over Start, Stop and Configure, the
    latter carrying the raw names and the raw delay, either of which may be
    absent ([None]). *)
Inductive CommandsForPolling : Type := START | STOP | SETTINGS.

Record CommandInfo : Type := mkCommandInfo {
  ci_names : option string;
  ci_delay : option string
}.

Record PollingInfo : Type := mkPollingInfo {
  pi_chat_id : ChatID;
  pi_command : CommandsForPolling;
  pi_command_info : CommandInfo
}.

(** Modelled from the spec: [src.models] is not part of the sources. The
    generation command is a tagged variant over Picture, Text and Both;
    [OTHER_KIND] stands for any kind the processor does not recognise. The
    name is a string or absent ([PNone]). *)
Inductive CommandsForGenerate : Type := PICTURE | TEXT | BOTH | OTHER_KIND (tag : string).

Record GenerateInfo : Type := mkGenerateInfo {
  gi_chat_id : ChatID;
  gi_command : CommandsForGenerate;
  gi_first_name : pyval
}.

(** ** Observable events *)

Inductive log_level : Type := DEBUG | WARNING | ERROR.

Inductive log_record : Type :=
| LogSenderStarted                 (* "Запуск бесконечной задачи" *)
| LogName (name : pyval)           (* logger.error(name) *)
| LogSenderCancelled               (* "Бесконечная задача отменена" *)
| LogUnexpected (err : exn)        (* logger.exception(...) *)
| LogNamesError (value : pyval).   (* "При пасинге имен произолша ошибка: ..." *)

Inductive event : Type :=
| EvParse (name : pyval)                          (* parse(session, name) *)
| EvSendPhoto (chat : ChatID) (image : bytes)     (* bot.send_photo *)
| EvSendMessage (chat : ChatID) (text : string)   (* bot.send_message *)
| EvLog (level : log_level) (record : log_record)
| EvSleep (delay : pyval).                        (* asyncio.sleep *)

(** ** Background tasks *)

(** A task of the event loop running [sender(chat_id)]. The coroutine's frame
    ([local_names_iter], [replay_delay]) lives as long as the task does. A list
    iterator is the list object it was made from and a position; the code never
    mutates a names list in place ([_names] rebinds the attribute to a new
    list), so the iterator is the sequence of items it has still to yield. *)
Inductive task_status : Type :=
| Created                 (* scheduled, body not entered yet *)
| Suspended               (* inside the loop, waiting at an await *)
| Done (outcome : exn).   (* the coroutine has unwound *)

Record task : Type := mkTask {
  task_chat : ChatID;
  local_names_iter : option (list pyval);
  replay_delay : pyval;
  task_status_of : task_status
}.

Abbreviation handle := nat.

(** The loop of [sender] awaits [asyncio.sleep] in its finally clause and,
    through [_send], three calls inside its try block. A runner that waits in
    one of the three is recorded with the call it has made and the locals of
    [_send] that the rest of the pass needs. *)
Inductive await_point : Type :=
| AwaitParse (name : pyval)                              (* parse, line 194 *)
| AwaitSendPhoto (image_bytes : bytes) (text : string)   (* bot.send_photo, line 197 *)
| AwaitSendMessage (text : string).                      (* bot.send_message, line 199 *)

(** Names bound at module level in sender.py: imports, the logger, the
    dataclass, the two constants and the class. *)
Definition module_globals : list (string * pyval) :=
  [ ("asyncio", PObj "module asyncio");
    ("json", PObj "module json");
    ("logging", PObj "module logging");
    ("dataclass", PObj "dataclasses.dataclass");
    ("Dict", PObj "typing.Dict");
    ("List", PObj "typing.List");
    ("NamedTuple", PObj "typing.NamedTuple");
    ("ClientSession", PObj "aiohttp.ClientSession");
    ("time_parse", PObj "pytimeparse.parse");
    ("bot", PObj "src.bot.bot.bot");
    ("configuration", PObj "src.config.configuration");
    ("parse", PObj "src.logic.parser.parse");
    ("GENERATE_QUEUE", PObj "src.models.GENERATE_QUEUE");
    ("POLLING_QUEUE", PObj "src.models.POLLING_QUEUE");
    ("ChatID", PObj "src.models.ChatID");
    ("CommandsForGenerate", PObj "src.models.CommandsForGenerate");
    ("CommandsForPolling", PObj "src.models.CommandsForPolling");
    ("GenerateInfo", PObj "src.models.GenerateInfo");
    ("PollingInfo", PObj "src.models.PollingInfo");
    ("cancel_and_stop_task", PObj "src.tasks.cancel_and_stop_task");
    ("run_background_task", PObj "src.tasks.run_background_task");
    ("run_forever", PObj "src.tasks.run_forever");
    ("logger", PObj "logging.Logger");
    ("SenderJob", PObj "class SenderJob");
    ("STANDARD_REPLAY_DELAY", PStr STANDARD_REPLAY_DELAY);
    ("REPEAT_DELAY", PObj "configuration[callbacks_checker_delay]");
    ("SenderCongratulationsMessage", PObj "class SenderCongratulationsMessage") ].

Fixpoint assoc (key : string) (env : list (string * pyval)) : option pyval :=
  match env with
  | [] => None
  | (k, v) :: rest => if String.eqb key k then Some v else assoc key rest
  end.

(** The least integer that has no [float]: conversion rounds to nearest, and
    from half-way between the largest float, [2^1024 - 2^971], and [2^1024] on
    it raises [OverflowError]. *)
Definition float_overflow : Z := 2 ^ 1024 - 2 ^ 970.

(** How a call [asyncio.sleep(delay)] ends, when it is not cancelled. It
    starts with [delay <= 0], which raises [TypeError] for anything that is
    not a number, and returns at once when the test holds. Otherwise the timer
    is set at [loop.time() + delay]: the sum of a float and an integer too
    large for a float raises [OverflowError]; a float or a [bool] is added
    without an exception. *)
Definition sleep_result (delay : pyval) : result unit :=
  match delay with
  | PInt n => if (float_overflow <=? n)%Z then Raise OverflowError else Ok tt
  | PFloat _ | PBool _ => Ok tt
  | _ => Raise TypeError
  end.
Arguments sleep_result : simpl never.

Definition placeholder_name : string := "Безымянная".
Definition names_error_text : string := "При пасинге имен произолша ошибка".

(** [if name is None: name = "Безымянная"]. *)
Definition or_placeholder (name : pyval) : pyval :=
  match name with
  | PNone => PStr placeholder_name
  | _ => name
  end.

(** ** What a run shows *)

(** The names for which content was requested, in order. *)
Fixpoint requested (evs : list event) : list pyval :=
  match evs with
  | [] => []
  | EvParse name :: rest => name :: requested rest
  | _ :: rest => requested rest
  end.

(** The transport calls: what goes out to a tenant. *)
Definition is_outbound (ev : event) : bool :=
  match ev with
  | EvSendPhoto _ _ | EvSendMessage _ _ => true
  | _ => false
  end.

Definition outbound (evs : list event) : list event := filter (fun ev => is_outbound ev = true) evs.

(** The runner's cursor over a fixed names list, on its own: [None] is the
    state without a cursor. [cursor_dispatch names it k] is what the wake
    number [k] (from 0) requests when the cursor stands at [it] before wake
    0. *)
Definition cursor_step (names : list pyval) (it : option (list pyval))
    : list pyval * option (list pyval) :=
  match it with
  | None => ([], Some names)
  | Some [] => ([], None)
  | Some (name :: rest) => ([or_placeholder name], Some rest)
  end.

Fixpoint cursor_dispatch (names : list pyval) (it : option (list pyval)) (k : nat)
    : list pyval :=
  match k with
  | O => fst (cursor_step names it)
  | S k' => cursor_dispatch names (snd (cursor_step names it)) k'
  end.

Definition names_AB : list pyval := [PStr "A"; PStr "B"].



(** The closed form of the runner's cycle over [names]: a pass takes
    [length names + 2] wakes, the first and the last of which request nothing;
    wake [i + 1] of a pass requests item [i], a [None] item under the
    placeholder. *)
Definition cycle_dispatch (names : list pyval) (k : nat) : list pyval :=
  match (k mod (length names + 2))%nat with
  | O => []
  | S i =>
      match names !! i with
      | Some name => [or_placeholder name]
      | None => []
      end
  end.

(** The number of calls to [asyncio.sleep]. *)
Fixpoint count_sleeps (evs : list event) : nat :=
  match evs with
  | [] => O
  | EvSleep _ :: rest => S (count_sleeps rest)
  | _ :: rest => count_sleeps rest
  end.

(** A transport call for a tenant other than [chat_id] is not
    [addressed_to chat_id]; every other event is. *)
Definition addressed_to (chat_id : ChatID) (ev : event) : Prop :=
  match ev with
  | EvSendPhoto chat _ | EvSendMessage chat _ => chat = chat_id
  | _ => True
  end.

(** What the scheduler and the producers of commands can do. A runner is
    resumed for a whole pass, when nothing else runs while it waits inside
    [_send], or from one await to the next. *)
Inductive action : Type :=
| Cycle                              (* one pass of the supervisor's loop *)
| Wake (h : handle)                  (* a runner's sleep ends: a whole pass *)
| Begin (h : handle)                 (* a runner's sleep ends: up to its next await *)
| Resume (h : handle)                (* the call a runner awaits ends: up to its next await *)
| PutPolling (cmd : PollingInfo)     (* a producer queues a polling command *)
| PutGenerate (cmd : GenerateInfo).  (* a producer queues a generation command *)

(** The steps of runners. *)
Definition is_wake (a : action) : bool :=
  match a with
  | Wake _ | Begin _ | Resume _ => true
  | _ => false
  end.

(** ** The supervisor's own task *)

(** The part of the instance that [start] and [stop] use: the attribute
    [_callback_task] and the supervisor loops that have been spawned, each
    with its status (a loop's handle is its position). *)
Record service : Type := mkService {
  _callback_task : option handle;
  loops : list task_status
}.

(** [__init__]: no supervisor task. *)
Definition new_service : service := mkService None [].

(** Modelled from the spec: [run_background_task] and [cancel_and_stop_task]
    of [src.tasks] are not part of the sources; on supervisor loops they spawn
    a new loop and end one that is not done. *)
Definition cancel_loop (status : task_status) : task_status :=
  match status with
  | Done outcome => Done outcome
  | _ => Done CancelledError
  end.

(** [start]: the new loop's handle replaces whatever [_callback_task]
    held. *)
Definition start (sv : service) : service :=
  mkService (Some (length (loops sv))) (loops sv ++ [Created]).

(** [stop]: the attribute is cleared first, then the task it held, if any, is
    cancelled and awaited. *)
Definition stop (sv : service) : service :=
  match _callback_task sv with
  | None => mkService None (loops sv)
  | Some task => mkService None (alter cancel_loop task (loops sv))
  end.

Definition loop_running (sv : service) (h : handle) : Prop :=
  exists status, loops sv !! h = Some status /\ forall outcome, status <> Done outcome.

(** ** The outside world *)

(** The external collaborators. [World] is everything outside the class that
    a call may read or change (the network, the transport's session). A call to
    the content provider yields an image and a text or fails; a transport call
    succeeds ([true]) or fails. [json_loads] is [json.loads] on a string: it
    returns the decoded value or raises, [JSONDecodeError] for a text that is
    not JSON, [RecursionError] for one nested too deep. [time_parse] is
    [pytimeparse.parse], which returns a number, or [None] for an expression it
    cannot read. [await_failed] is what [cancel_and_stop_task] of [src.tasks],
    which is not part of the sources, gives its caller when the task it has
    cancelled and awaited ended with an exception of its own and not with the
    cancellation: it may return, or pass the exception on. *)
Class Externals : Type := mkExternals {
  World : Type;
  parse : pyval -> World -> option (bytes * string) * World;
  bot_send_photo : ChatID -> bytes -> World -> bool * World;
  bot_send_message : ChatID -> string -> World -> bool * World;
  json_loads : string -> result pyval;
  time_parse : string -> pyval;
  await_failed : exn -> result unit
}.

(** ** Program state and effects *)

Section Sender.

Context {E : Externals}.

(** The instance's two registries, the two module-level queues
    (oldest command first), the event loop's task table (a task's handle is its
    position, tasks are only ever added at the end), the runners that wait
    inside [_send], each with the call it awaits (a runner that is suspended
    and not recorded here waits in its sleep), and the outside world. *)
Record state : Type := mkState {
  chat_to_job : gmap ChatID handle;
  chat_to_setting : gmap ChatID SenderJob;
  POLLING_QUEUE : list PollingInfo;
  GENERATE_QUEUE : list GenerateInfo;
  tasks : list task;
  awaiting : gmap handle await_point;
  world : World
}.

Definition set_chat_to_job (f : gmap ChatID handle -> gmap ChatID handle) (st : state) : state :=
  mkState (f (chat_to_job st)) (chat_to_setting st) (POLLING_QUEUE st) (GENERATE_QUEUE st)
          (tasks st) (awaiting st) (world st).

Definition set_chat_to_setting (f : gmap ChatID SenderJob -> gmap ChatID SenderJob)
    (st : state) : state :=
  mkState (chat_to_job st) (f (chat_to_setting st)) (POLLING_QUEUE st) (GENERATE_QUEUE st)
          (tasks st) (awaiting st) (world st).

Definition set_POLLING_QUEUE (q : list PollingInfo) (st : state) : state :=
  mkState (chat_to_job st) (chat_to_setting st) q (GENERATE_QUEUE st) (tasks st)
          (awaiting st) (world st).

Definition set_GENERATE_QUEUE (q : list GenerateInfo) (st : state) : state :=
  mkState (chat_to_job st) (chat_to_setting st) (POLLING_QUEUE st) q (tasks st)
          (awaiting st) (world st).

Definition set_tasks (f : list task -> list task) (st : state) : state :=
  mkState (chat_to_job st) (chat_to_setting st) (POLLING_QUEUE st) (GENERATE_QUEUE st)
          (f (tasks st)) (awaiting st) (world st).

Definition set_awaiting (f : gmap handle await_point -> gmap handle await_point)
    (st : state) : state :=
  mkState (chat_to_job st) (chat_to_setting st) (POLLING_QUEUE st) (GENERATE_QUEUE st)
          (tasks st) (f (awaiting st)) (world st).

Definition set_world (w : World) (st : state) : state :=
  mkState (chat_to_job st) (chat_to_setting st) (POLLING_QUEUE st) (GENERATE_QUEUE st)
          (tasks st) (awaiting st) w.

(** A computation returns or raises, changes the state, and leaves the events
    it caused, first one first. *)
Definition Aio (A : Type) : Type := state -> result A * state * list event.

#[global] Instance Aio_ret : MRet Aio := fun A a st => (Ok a, st, []).

#[global] Instance Aio_bind : MBind Aio := fun A B k m st =>
  match m st with
  | (Ok a, st1, ev1) => let '(r, st2, ev2) := k a st1 in (r, st2, ev1 ++ ev2)
  | (Raise e, st1, ev1) => (Raise e, st1, ev1)
  end.

Definition raise {A : Type} (e : exn) : Aio A := fun st => (Raise e, st, []).

Definition emit (ev : event) : Aio unit := fun st => (Ok tt, st, [ev]).

Definition get_state : Aio state := fun st => (Ok st, st, []).

Definition modify (f : state -> state) : Aio unit := fun st => (Ok tt, f st, []).

(** [try: body except e: handler e]; a handler re-raises what it does not
    catch. *)
Definition try_except {A : Type} (body : Aio A) (handler : exn -> Aio A) : Aio A := fun st =>
  match body st with
  | (Ok a, st1, ev1) => (Ok a, st1, ev1)
  | (Raise e, st1, ev1) => let '(r, st2, ev2) := handler e st1 in (r, st2, ev1 ++ ev2)
  end.

(** [try: body finally: final]: [final] runs however [body] ended, and an
    exception it raises replaces the outcome of [body]. *)
Definition try_finally {A : Type} (body : Aio A) (final : Aio unit) : Aio A := fun st =>
  let '(r, st1, ev1) := body st in
  match final st1 with
  | (Ok _, st2, ev2) => (r, st2, ev1 ++ ev2)
  | (Raise e, st2, ev2) => (Raise e, st2, ev1 ++ ev2)
  end.

(** [key in mapping]. *)
Definition contains {V : Type} (m : gmap ChatID V) (key : ChatID) : bool :=
  match m !! key with Some _ => true | None => false end.

(** Reading a name that is not a local of the function: the module's globals
    are searched (none of the names used here is a builtin), and a name bound
    nowhere raises [NameError]. *)
Definition load_global (name : string) : Aio pyval :=
  match assoc name module_globals with
  | Some v => mret v
  | None => raise (NameError name)
  end.

(** *** Calls to the outside *)

Definition call_parse (name : pyval) : Aio (bytes * string) := fun st =>
  let '(r, w) := parse name (world st) in
  (match r with Some payload => Ok payload | None => Raise (OtherException "parse") end,
   set_world w st, [EvParse name]).

Definition call_send_photo (chat : ChatID) (image_bytes : bytes) : Aio unit := fun st =>
  let '(sent, w) := bot_send_photo chat image_bytes (world st) in
  (if sent then Ok tt else Raise (OtherException "bot.send_photo"),
   set_world w st, [EvSendPhoto chat image_bytes]).

Definition call_send_message (chat : ChatID) (text : string) : Aio unit := fun st =>
  let '(sent, w) := bot_send_message chat text (world st) in
  (if sent then Ok tt else Raise (OtherException "bot.send_message"),
   set_world w st, [EvSendMessage chat text]).

(** [asyncio.sleep(delay)]: the call is made, and ends as [sleep_result]
    says. *)
Definition asyncio_sleep (delay : pyval) : Aio unit := fun st =>
  (sleep_result delay, st, [EvSleep delay]).

(** Modelled from the spec: [run_background_task] of [src.tasks] is not part
    of the sources. It spawns the coroutine as a task of its own and returns
    the handle; the task's body does not run before the caller next awaits. *)
Definition run_background_task (chat_id : ChatID) : Aio handle := fun st =>
  (Ok (length (tasks st)),
   set_tasks (fun ts => ts ++ [mkTask chat_id None PNone Created]) st, []).

(** *** The frame of a runner, and the clauses that end a pass *)

(** The frame of the coroutine that task [h] runs. *)
Definition frame (h : handle) : Aio task :=
  st ← get_state;
  match tasks st !! h with
  | Some t => mret t
  | None => raise KeyError
  end.

Definition assign_local_names_iter (h : handle) (it : option (list pyval)) : Aio unit :=
  modify (set_tasks (alter (fun t =>
    mkTask (task_chat t) it (replay_delay t) (task_status_of t)) h)).

Definition assign_replay_delay (h : handle) (delay : pyval) : Aio unit :=
  modify (set_tasks (alter (fun t =>
    mkTask (task_chat t) (local_names_iter t) delay (task_status_of t)) h)).

Definition set_status (status : task_status) (t : task) : task :=
  mkTask (task_chat t) (local_names_iter t) (replay_delay t) status.

(** An update of a task's entry that keeps the tenant the task is bound to,
    as every update of the model does. *)
Definition keeps_chat (f : task -> task) : Prop :=
  forall t, task_chat (f t) = task_chat t.

(** The except clauses of the loop of [sender], lines 170 to 180. *)
Definition sender_except (h : handle) (err : exn) : Aio unit :=
  match err with
  | CancelledError => emit (EvLog DEBUG LogSenderCancelled);; raise CancelledError
  | StopIteration => assign_local_names_iter h None
  | _ => emit (EvLog ERROR (LogUnexpected err))
  end.

(** Its finally clause, lines 181 and 182. *)
Definition sender_finally (h : handle) : Aio unit :=
  t ← frame h; asyncio_sleep (replay_delay t).

(** The task is left waiting in its sleep, or done with the exception that
    came out of the loop. *)
Definition settle (h : handle) (run : result unit * state * list event)
    : state * list event :=
  let '(r, st, evs) := run in
  (set_tasks (alter (set_status match r with
                                | Ok _ => Suspended
                                | Raise e => Done e
                                end) h) st, evs).

(** The rest of a pass whose try block has ended as [outcome]: the except
    clause that matches, the finally clause, and the task left in its sleep
    or done. *)
Definition pass_end (h : handle) (outcome : result unit) (st : state)
    : state * list event :=
  settle h (try_finally
              (try_except (fun st0 => (outcome, st0, [])) (sender_except h))
              (sender_finally h) st).

(** Modelled from the spec: [cancel_and_stop_task] of [src.tasks] is not part
    of the sources. It cancels the task and waits until the task has fully
    unwound. A task that is done already stays as it is. A runner that waits
    in its sleep, or has not started, unwinds without another step of its
    code: the sleep is in the finally clause, outside the try block. In a
    runner that waits inside [_send] the cancellation is raised at that await,
    inside the try block: the call is abandoned (what it has done outside is
    not observed), the except clause logs and raises again, the finally clause
    sleeps, and then the task is done. The caller gets a return when the task
    has ended with the cancellation, and [await_failed] when it has ended with
    another exception. *)
Definition cancel_task (t : task) : task :=
  match task_status_of t with
  | Done _ => t
  | _ => mkTask (task_chat t) (local_names_iter t) (replay_delay t) (Done CancelledError)
  end.

(** Task [h] waits inside [_send], at the call this gives. *)
Definition waiting_in_send (st : state) (h : handle) : option await_point :=
  match tasks st !! h with
  | Some t =>
      match task_status_of t with
      | Done _ => None
      | _ => awaiting st !! h
      end
  | None => None
  end.

Definition awaited (st : state) (h : handle) : result unit :=
  match tasks st !! h with
  | Some t =>
      match task_status_of t with
      | Done CancelledError => Ok tt
      | Done e => await_failed e
      | _ => Ok tt
      end
  | None => Ok tt
  end.

Definition cancel_and_stop_task (h : handle) : Aio unit := fun st =>
  match waiting_in_send st h with
  | Some _ =>
      let '(st', evs) :=
        pass_end h (Raise CancelledError) (set_awaiting (delete h) st) in
      (awaited st' h, st', evs)
  | None =>
      let st' := set_tasks (alter cancel_task h) st in
      (awaited st' h, st', [])
  end.

(** ** The methods of [SenderCongratulationsMessage] *)

(** [_send]: payload for [name] from the content provider, then the photo
    unless only the text is wanted, then the text unless only the picture is
    wanted. *)
Definition _send (_chat_id : ChatID) (name : pyval)
    (send_only_picture send_only_text : bool) : Aio unit :=
  let name := or_placeholder name in
  '(image_bytes, text) ← call_parse name;
  (if negb send_only_text then call_send_photo _chat_id image_bytes else mret tt);;
  (if negb send_only_picture then call_send_message _chat_id text else mret tt).

Definition _start_task (job_info : PollingInfo) : Aio unit :=
  let chat_id := pi_chat_id job_info in
  st ← get_state;
  if contains (chat_to_job st) chat_id || contains (chat_to_setting st) chat_id then mret tt
  else
    task ← run_background_task chat_id;
    modify (set_chat_to_job <[chat_id := task]>);;
    repeat_delay ← load_global "repeat_delay";
    modify (set_chat_to_setting <[chat_id := mkSenderJob repeat_delay []]>).

Definition _stop_task (chat_id : ChatID) : Aio unit :=
  st ← get_state;
  if negb (contains (chat_to_job st) chat_id) || negb (contains (chat_to_setting st) chat_id)
  then mret tt
  else
    match chat_to_job st !! chat_id with
    | None => raise KeyError
    | Some task =>
        modify (set_chat_to_job (delete chat_id));;
        modify (set_chat_to_setting (delete chat_id));;
        cancel_and_stop_task task
    end.

(** The [except (JSONDecodeError, ValueError)] branch of [_names]; [value] is
    what the local [names] holds when the exception is caught: the raw string
    when [json.loads] failed, the decoded value when it is not a list. *)
Definition names_rejected (chat_id : ChatID) (value : pyval) : Aio unit :=
  call_send_message chat_id names_error_text;;
  emit (EvLog WARNING (LogNamesError value)).

Definition set_names (new_names : list pyval) (job : SenderJob) : SenderJob :=
  mkSenderJob (repeat_delay job) new_names.

Definition set_repeat_delay (delay : pyval) (job : SenderJob) : SenderJob :=
  mkSenderJob delay (names job).

(** [except (json.decoder.JSONDecodeError, ValueError)]: the exceptions of
    this model that the clause catches ([JSONDecodeError] is a [ValueError];
    [TypeError] and [RecursionError] are not, and [OtherException] stands for
    exceptions that are not). *)
Definition caught_by_names (e : exn) : bool :=
  match e with
  | JSONDecodeError | ValueError => true
  | _ => false
  end.

Definition _names (chat_id : ChatID) (raw : option string) : Aio unit :=
  match raw with
  | None => raise TypeError                         (* json.loads(None) *)
  | Some text =>
      match json_loads text with
      | Raise e =>                                  (* json.loads raises *)
          if caught_by_names e
          then names_rejected chat_id (PStr text)
          else raise e
      | Ok (PList new_names) =>
          st ← get_state;
          if negb (contains (chat_to_job st) chat_id)
             || negb (contains (chat_to_setting st) chat_id)
          then mret tt
          else modify (set_chat_to_setting (alter (set_names new_names) chat_id))
      | Ok value => names_rejected chat_id value    (* raise ValueError *)
      end
  end.

(** [repeat_delay or STANDARD_REPLAY_DELAY]: [None] and the empty string are
    the falsy ones. *)
Definition or_standard (raw : option string) : string :=
  match raw with
  | None => STANDARD_REPLAY_DELAY
  | Some text => if String.eqb text "" then STANDARD_REPLAY_DELAY else text
  end.

Definition _repeat_delay (chat_id : ChatID) (raw : option string) : Aio unit :=
  st ← get_state;
  if negb (contains (chat_to_job st) chat_id) || negb (contains (chat_to_setting st) chat_id)
  then mret tt
  else
    let parsed := time_parse (or_standard raw) in
    modify (set_chat_to_setting (alter (set_repeat_delay parsed) chat_id)).

Definition _polling : Aio unit :=
  st ← get_state;
  match POLLING_QUEUE st with
  | [] => mret tt
  | job_info :: rest =>
      modify (set_POLLING_QUEUE rest);;
      let chat_id := pi_chat_id job_info in
      match pi_command job_info with
      | START => _start_task job_info
      | STOP => _stop_task chat_id
      | SETTINGS =>
          _names chat_id (ci_names (pi_command_info job_info));;
          _repeat_delay chat_id (ci_delay (pi_command_info job_info))
      end
  end.

Definition _generate : Aio unit :=
  st ← get_state;
  match GENERATE_QUEUE st with
  | [] => mret tt
  | get_info :: rest =>
      modify (set_GENERATE_QUEUE rest);;
      let send_only_picture :=
        match gi_command get_info with PICTURE => true | _ => false end in
      let send_only_text :=
        match gi_command get_info with TEXT => true | _ => false end in
      _send (gi_chat_id get_info) (gi_first_name get_info) send_only_picture send_only_text
  end.

(** The body that [run_forever] repeats: one cycle of the supervisor. *)
Definition callback_checker : Aio unit :=
  _polling;; _generate.

(** ** The job runner [sender] *)

(** [local_names_iter.__next__()]: the next item, or [StopIteration] at the
    end. *)
Definition next_name (h : handle) (remaining : list pyval) : Aio pyval :=
  match remaining with
  | [] => raise StopIteration
  | name :: rest => assign_local_names_iter h (Some rest);; mret name
  end.

(** The statements before the loop. *)
Definition sender_prologue (h : handle) : Aio unit :=
  emit (EvLog DEBUG LogSenderStarted);;
  assign_local_names_iter h None.

(** One pass through the body of [while True]. *)
Definition sender_iteration (h : handle) (chat_id : ChatID) : Aio unit :=
  assign_replay_delay h (PInt 5);;
  try_finally
    (try_except
       (st ← get_state;
        match chat_to_setting st !! chat_id with
        | None => raise CancelledError
        | Some job =>
            assign_replay_delay h (repeat_delay job);;
            let names := names job in
            t ← frame h;
            match local_names_iter t with
            | None => assign_local_names_iter h (Some names)
            | Some remaining =>
                name ← next_name h remaining;
                emit (EvLog ERROR (LogName name));;
                _send chat_id name false false
            end
        end)
       (sender_except h))
    (sender_finally h).

(** The event loop resumes task [h]: a new task enters the coroutine, a
    waiting one returns from its sleep, and either runs up to the next sleep.
    A task that is done is not resumed. This is a whole pass: the calls that
    [_send] awaits return before anything else runs. *)
Definition sender_wake (h : handle) (st : state) : state * list event :=
  match tasks st !! h with
  | None => (st, [])
  | Some t =>
      match task_status_of t with
      | Done _ => (st, [])
      | Created =>
          settle h ((sender_prologue h;; sender_iteration h (task_chat t)) st)
      | Suspended =>
          settle h (sender_iteration h (task_chat t) st)
      end
  end.

(** The events of wake number [k] (from 0) of task [h] when the event loop
    resumes no other task and no command is processed in between. *)
Fixpoint wake_events (h : handle) (k : nat) (st : state) : list event :=
  match k with
  | O => snd (sender_wake h st)
  | S k' => wake_events h k' (fst (sender_wake h st))
  end.

(** *** A pass, from one await to the next *)

(** The try block up to the call of [_send]: [Some name] when the pass goes
    on to [_send(chat_id, name)], [None] when it has set up the cursor and the
    try block is over. *)
Definition sender_head (h : handle) (chat_id : ChatID) : Aio (option pyval) :=
  st ← get_state;
  match chat_to_setting st !! chat_id with
  | None => raise CancelledError
  | Some job =>
      assign_replay_delay h (repeat_delay job);;
      let names := names job in
      t ← frame h;
      match local_names_iter t with
      | None => assign_local_names_iter h (Some names);; mret None
      | Some remaining =>
          name ← next_name h remaining;
          emit (EvLog ERROR (LogName name));;
          mret (Some name)
      end
  end.

(** The sleep of task [h] ends, or the task is started: it runs up to its
    next await. That is the call of [parse] at the start of [_send] when the
    pass has a name to dispatch, and the sleep that ends the pass otherwise. A
    task that is done or waits inside [_send] is not in its sleep. *)
Definition sender_begin (h : handle) (st : state) : state * list event :=
  match tasks st !! h, waiting_in_send st h with
  | Some t, None =>
      match task_status_of t with
      | Done _ => (st, [])
      | status =>
          match ((match status with
                  | Created => sender_prologue h
                  | _ => mret tt
                  end);;
                 assign_replay_delay h (PInt 5);;
                 sender_head h (task_chat t)) st with
          | (Ok (Some name), st1, ev1) =>
              (set_awaiting <[h := AwaitParse (or_placeholder name)]> st1,
               ev1 ++ [EvParse (or_placeholder name)])
          | (Ok None, st1, ev1) =>
              let '(st2, ev2) := pass_end h (Ok tt) st1 in (st2, ev1 ++ ev2)
          | (Raise e, st1, ev1) =>
              let '(st2, ev2) := pass_end h (Raise e) st1 in (st2, ev1 ++ ev2)
          end
      end
  | _, _ => (st, [])
  end.

(** The call that task [h] awaits inside [_send] ends: the task goes on to
    its next await, the next call of [_send], or, when [_send] has returned or
    the call has raised, the sleep that ends the pass. *)
Definition sender_resume (h : handle) (st : state) : state * list event :=
  match tasks st !! h, waiting_in_send st h with
  | Some t, Some p =>
      let _chat_id := task_chat t in
      let st0 := set_awaiting (delete h) st in
      match p with
      | AwaitParse name =>
          match parse name (world st0) with
          | (Some (image_bytes, text), w) =>
              (set_awaiting <[h := AwaitSendPhoto image_bytes text]> (set_world w st0),
               [EvSendPhoto _chat_id image_bytes])
          | (None, w) =>
              pass_end h (Raise (OtherException "parse")) (set_world w st0)
          end
      | AwaitSendPhoto image_bytes text =>
          match bot_send_photo _chat_id image_bytes (world st0) with
          | (true, w) =>
              (set_awaiting <[h := AwaitSendMessage text]> (set_world w st0),
               [EvSendMessage _chat_id text])
          | (false, w) =>
              pass_end h (Raise (OtherException "bot.send_photo")) (set_world w st0)
          end
      | AwaitSendMessage text =>
          match bot_send_message _chat_id text (world st0) with
          | (true, w) => pass_end h (Ok tt) (set_world w st0)
          | (false, w) =>
              pass_end h (Raise (OtherException "bot.send_message")) (set_world w st0)
          end
      end
  | _, _ => (st, [])
  end.


(** ** The supervisor and the scheduler *)

(** Modelled from the spec: [run_forever] of [src.tasks] is not part of the
    sources. It runs the body, waits for the interval and repeats until it is
    cancelled; an exception of the body is caught and logged. One cycle: *)
Definition supervisor_cycle (st : state) : state * list event :=
  let '(r, st', evs) := callback_checker st in
  (st', evs ++ match r with
               | Ok _ => []
               | Raise e => [EvLog ERROR (LogUnexpected e)]
               end).

Definition step (a : action) (st : state) : state * list event :=
  match a with
  | Cycle => supervisor_cycle st
  | Wake h =>
      match waiting_in_send st h with
      | Some _ => (st, [])                 (* not in its sleep *)
      | None => sender_wake h st
      end
  | Begin h => sender_begin h st
  | Resume h => sender_resume h st
  | PutPolling cmd => (set_POLLING_QUEUE (POLLING_QUEUE st ++ [cmd]) st, [])
  | PutGenerate cmd => (set_GENERATE_QUEUE (GENERATE_QUEUE st ++ [cmd]) st, [])
  end.

Fixpoint run (schedule : list action) (st : state) : state :=
  match schedule with
  | [] => st
  | a :: rest => run rest (fst (step a st))
  end.

(** A tenant is active when both registries hold it: the test every method
    but [_start_task] starts with. *)
Definition active (st : state) (chat_id : ChatID) : bool :=
  contains (chat_to_job st) chat_id && contains (chat_to_setting st) chat_id.

(** [__init__]: empty registries; the queues and the task table start empty
    too. *)
Definition init (w : World) : state := mkState ∅ ∅ [] [] [] ∅ w.

(** Task [h] runs the job of [chat_id] and is ready to be resumed with its
    cursor at [it] (a task that has not entered its body has no cursor yet),
    and the tenant's settings hold [names] and a delay that [asyncio.sleep]
    accepts. *)
Definition runner_at (st : state) (h : handle) (chat_id : ChatID)
    (names : list pyval) (it : option (list pyval)) : Prop :=
  (exists t, tasks st !! h = Some t /\ task_chat t = chat_id /\
     (task_status_of t = Suspended /\ local_names_iter t = it \/
      task_status_of t = Created /\ it = None)) /\
  (exists delay, chat_to_setting st !! chat_id = Some (mkSenderJob delay names) /\
     sleep_result delay = Ok tt).


(** Task [h] has not ended: the event loop can resume it. *)
Definition live (st : state) (h : handle) : bool :=
  match tasks st !! h with
  | Some t => match task_status_of t with Done _ => false | _ => true end
  | None => false
  end.

(** The state after the first [k] wakes of task [h] (see [wake_events]). *)
Fixpoint after_wakes (h : handle) (k : nat) (st : state) : state :=
  match k with
  | O => st
  | S k' => after_wakes h k' (fst (sender_wake h st))
  end.

Definition task_done (st : state) (h : handle) : Prop :=
  exists t outcome, tasks st !! h = Some t /\ task_status_of t = Done outcome.

(** Task [h] runs [sender(chat_id)]. *)
Definition bound_to (st : state) (h : handle) (chat_id : ChatID) : Prop :=
  exists t, tasks st !! h = Some t /\ task_chat t = chat_id.

(** The tenant has no settings, and whoever waits inside [_send] is a runner
    of another tenant or a task that is done. *)
Definition tenant_at_rest (st : state) (chat_id : ChatID) : Prop :=
  chat_to_setting st !! chat_id = None /\
  forall h,
    awaiting st !! h = None \/
    (exists other, bound_to st h other /\ other <> chat_id) \/
    task_done st h.

(** How [_names] reads a raw payload: it is absent, so that [json.loads]
    raises [TypeError]; it decodes to a list; it is rejected, with what the
    local [names] holds then (the raw text when [json.loads] raised an
    exception that the except clause catches, the decoded value when that is
    not a list); or [json.loads] raised an exception that the clause does not
    catch. *)
Inductive names_reading : Type :=
| NamesAbsent
| NamesAccepted (new_names : list pyval)
| NamesRejected (value : pyval)
| NamesRaised (e : exn).

Definition read_names (raw : option string) : names_reading :=
  match raw with
  | None => NamesAbsent
  | Some text =>
      match json_loads text with
      | Raise e => if caught_by_names e then NamesRejected (PStr text) else NamesRaised e
      | Ok (PList new_names) => NamesAccepted new_names
      | Ok value => NamesRejected value
      end
  end.

(** The generation step ran in a cycle that started in [st] and ended in
    [st']: the command at the head of the queue was taken. *)
Definition generation_ran (st st' : state) : Prop :=
  GENERATE_QUEUE st' = tail (GENERATE_QUEUE st).

(** The steps of a schedule with the events each one causes. *)
Fixpoint run_trace (schedule : list action) (st : state) : list (action * list event) :=
  match schedule with
  | [] => []
  | a :: rest => (a, (step a st).2) :: run_trace rest (step a st).1
  end.

(** [k] executions of the supervisor's body in a row, nothing else happening
    in between. *)
Fixpoint cycles (k : nat) (st : state) : state :=
  match k with
  | O => st
  | S k' => cycles k' (callback_checker st).1.2
  end.

(** How many of those [k] cycles reach the generation step: the ones whose
    polling step returned. *)
Fixpoint generation_steps (k : nat) (st : state) : nat :=
  match k with
  | O => O
  | S k' =>
      (match (_polling st).1.1 with Ok _ => 1 | Raise _ => 0 end
       + generation_steps k' (callback_checker st).1.2)%nat
  end.

(** The two registries hold the same tenants. *)
Definition paired (st : state) : Prop :=
  forall chat_id, contains (chat_to_job st) chat_id = contains (chat_to_setting st) chat_id.

(** The delay a pass of the runner of [t] ends with: the tenant's current
    [repeat_delay], or 5 when the tenant has no settings. *)
Definition pass_delay (st : state) (t : task) : pyval :=
  match chat_to_setting st !! task_chat t with
  | Some job => repeat_delay job
  | None => PInt 5
  end.

(** [emits Q m]: every event that [m] causes satisfies [Q]. *)
Definition emits {A : Type} (Q : event -> Prop) (m : Aio A) : Prop :=
  forall st, Forall Q (m st).2.

(** ** Frame conditions *)

(** [stable P m]: a property of the state that holds before [m] holds after
    it, however [m] ends. *)
Definition stable {A : Type} (P : state -> Prop) (m : Aio A) : Prop :=
  forall st, P st -> P (m st).1.2.

(** A property that does not read the outside world survives every call to a
    collaborator. *)
Definition world_blind (P : state -> Prop) : Prop :=
  forall w st, P st -> P (set_world w st).

End Sender.

(** ** Concrete collaborators for the examples *)

(** A delay parser on expressions made of digits and one unit letter, with
    the values [pytimeparse] gives them; it reads nothing else. *)
Definition digit_value (c : ascii) : option Z :=
  let n := Z.of_nat (nat_of_ascii c) in
  if ((48 <=? n)%Z && (n <=? 57)%Z)%bool then Some (n - 48) else None.

Fixpoint read_digits (acc : Z) (text : string) : Z * string :=
  match text with
  | EmptyString => (acc, EmptyString)
  | String c rest =>
      match digit_value c with
      | Some d => read_digits (10 * acc + d) rest
      | None => (acc, text)
      end
  end.

Definition unit_seconds (unit_name : string) : option Z :=
  if String.eqb unit_name "s" then Some 1
  else if String.eqb unit_name "m" then Some 60
  else if String.eqb unit_name "h" then Some 3600
  else if String.eqb unit_name "d" then Some 86400
  else if String.eqb unit_name "w" then Some 604800
  else None.

Definition units_time_parse (text : string) : pyval :=
  match text with
  | EmptyString => PNone
  | String c _ =>
      match digit_value c with
      | None => PNone
      | Some _ =>
          let '(n, unit_name) := read_digits 0 text in
          match unit_seconds unit_name with
          | Some seconds => PInt (n * seconds)
          | None => PNone
          end
      end
  end.

(** The double quote, and the JSON texts of the examples. *)
Definition dquote : string := String (ascii_of_nat 34) EmptyString.

Definition json_text_AB : string :=
  String.concat "" ["["; dquote; "A"; dquote; ", "; dquote; "B"; dquote; "]"].

(** Two thousand opening brackets: more levels than the decoder's recursion
    allows. *)
Definition json_text_deep : string := String.concat "" (replicate 2000%nat "[").

(** [json.loads] on the texts of the examples: an array of two strings, an
    empty object, a number, and the text that is nested too deep. Any other
    text is malformed for this decoder. *)
Definition table_json_loads (text : string) : result pyval :=
  if String.eqb text json_text_deep then Raise RecursionError
  else
    match assoc text [ (json_text_AB, PList names_AB); ("{}", PDict []); ("7", PInt 7) ] with
    | Some value => Ok value
    | None => Raise JSONDecodeError
    end.

Definition demo_image : bytes := [x89; x50; x4e; x47]%byte.

(** Collaborators that always succeed and keep no state; awaiting a task
    that has failed raises its exception. *)
Definition demo : Externals :=
  mkExternals unit
    (fun _ w => (Some (demo_image, "card"), w))
    (fun _ _ w => (true, w))
    (fun _ _ w => (true, w))
    table_json_loads
    units_time_parse
    (fun e => Raise e).

(** Collaborators that keep no state and succeed or fail as the flags say. *)
Definition scripted (parse_ok photo_ok message_ok : bool) : Externals :=
  mkExternals unit
    (fun _ w => (if parse_ok then Some (demo_image, "card") else None, w))
    (fun _ _ w => (photo_ok, w))
    (fun _ _ w => (message_ok, w))
    table_json_loads
    units_time_parse
    (fun e => Raise e).

(** Tenant 42 under [scripted] collaborators, its runner waiting with the
    cursor at [it]. *)
Definition scripted_42 (parse_ok photo_ok message_ok : bool)
    (job_names : list pyval) (it : option (list pyval))
    : @state (scripted parse_ok photo_ok message_ok) :=
  @mkState (scripted parse_ok photo_ok message_ok)
    {["42" := 0%nat]} {["42" := mkSenderJob (PInt 60) job_names]} [] []
    [mkTask "42" it (PInt 60) Suspended] ∅ tt.

(** Tenant 42 with a job over [job_names] and a delay of 60; its runner is
    task 0. *)
Definition tenant_42 (job_names : list pyval) (status : task_status) : @state demo :=
  @mkState demo {["42" := 0%nat]} {["42" := mkSenderJob (PInt 60) job_names]} [] []
    [mkTask "42" None PNone status] ∅ tt.

Definition tenant_AB (status : task_status) : @state demo := tenant_42 names_AB status.

Definition start_42 : PollingInfo := mkPollingInfo "42" START (mkCommandInfo None None).

Definition configure_42 (raw_names raw_delay : option string) : PollingInfo :=
  mkPollingInfo "42" SETTINGS (mkCommandInfo raw_names raw_delay).

Definition generate_42 (kind : CommandsForGenerate) (name : pyval) : GenerateInfo :=
  mkGenerateInfo "42" kind name.

(** Tenant 42 as a Start on a new instance leaves it: a handle, a task that
    has not run, no settings. *)
Definition half_started_42 : @state demo :=
  @mkState demo {["42" := 0%nat]} ∅ [] [] [mkTask "42" None PNone Created] ∅ tt.

(** Tenant 42 active, with polling commands waiting. *)
Definition tenant_42_queued (polling : list PollingInfo) : @state demo :=
  @mkState demo {["42" := 0%nat]} {["42" := mkSenderJob (PInt 60) names_AB]} polling []
    [mkTask "42" None PNone Suspended] ∅ tt.

(** Tenant 42 with its runner inside [_send]: A has been requested, the
    photo is on its way and the text is still to be sent. *)
Definition tenant_42_in_send : @state demo :=
  @mkState demo {["42" := 0%nat]} {["42" := mkSenderJob (PInt 60) names_AB]} [] []
    [mkTask "42" (Some [PStr "B"]) (PInt 60) Suspended]
    {[0%nat := AwaitSendPhoto demo_image "card"]} tt.

(** A runner for tenant 42 on an instance whose registries are empty. *)
Definition orphan_42 (status : task_status) : @state demo :=
  @mkState demo ∅ ∅ [] [] [mkTask "42" None PNone status] ∅ tt.

(** A new instance under [scripted] collaborators with generation commands
    waiting. *)
Definition scripted_pending (parse_ok photo_ok message_ok : bool)
    (generate : list GenerateInfo) : @state (scripted parse_ok photo_ok message_ok) :=
  @mkState (scripted parse_ok photo_ok message_ok) ∅ ∅ [] generate [] ∅ tt.

Definition names_with_gap : list pyval := [PStr "A"; PNone; PStr "C"].

(** A new instance with the given commands waiting in the two queues. *)
Definition pending (polling : list PollingInfo) (generate : list GenerateInfo)
    : @state demo :=
  @mkState demo ∅ ∅ polling generate [] ∅ tt.

(** ** Proof automation *)

Ltac aio_unfold :=
  unfold callback_checker, _polling, _generate, _start_task, _stop_task, _names,
    _repeat_delay, names_rejected, _send, load_global, run_background_task,
    cancel_and_stop_task, call_parse, call_send_photo, call_send_message,
    asyncio_sleep, raise, emit, get_state, modify, try_except, try_finally,
    mbind, mret, Aio_bind, Aio_ret in *.

Ltac wake_unfold :=
  unfold sender_prologue, sender_iteration, sender_except, sender_finally,
    assign_replay_delay, assign_local_names_iter,
    frame, next_name, _send, call_parse, call_send_photo, call_send_message, asyncio_sleep,
    try_finally, try_except, get_state, modify, raise, emit, mbind, mret, Aio_bind, Aio_ret.

Ltac wake_crunch Htask Hnumber :=
  repeat first
    [ rewrite list_lookup_alter_eq
    | rewrite Htask
    | rewrite Hnumber
    | progress cbn
    | match goal with
      | |- context [parse ?name ?w] => destruct (parse name w) as [[[? ?]|] ?]
      | |- context [bot_send_photo ?c ?b ?w] => destruct (bot_send_photo c b w) as [[|] ?]
      | |- context [bot_send_message ?c ?b ?w] => destruct (bot_send_message c b w) as [[|] ?]
      end ].

Ltac runner_finish Htask Hsetting :=
  unfold runner_at; cbn; rewrite ?list_lookup_alter_eq, Htask; cbn;
  split; [eexists; split; [reflexivity|]; cbn; auto | rewrite Hsetting; eauto].

(** * Properties *)

Section Properties.

Context {E : Externals}.

Implicit Types (st : state) (chat_id : ChatID) (h : handle).

(** ** Registry lookups *)

Lemma contains_true {V : Type} (m : gmap ChatID V) chat_id :
  contains m chat_id = true <-> is_Some (m !! chat_id).
Proof.
  unfold contains. destruct (m !! chat_id) eqn:Hlookup.
  - split; [eauto | done].
  - split; [done | intros [? ?]; done].
Qed.

Lemma contains_false {V : Type} (m : gmap ChatID V) chat_id :
  contains m chat_id = false <-> m !! chat_id = None.
Proof. unfold contains. by destruct (m !! chat_id). Qed.

Lemma contains_insert {V : Type} (m : gmap ChatID V) chat_id (v : V) :
  contains (<[chat_id := v]> m) chat_id = true.
Proof. unfold contains. by rewrite lookup_insert_eq. Qed.

Lemma contains_delete {V : Type} (m : gmap ChatID V) chat_id :
  contains (delete chat_id m) chat_id = false.
Proof. unfold contains. by rewrite lookup_delete_eq. Qed.

Lemma contains_alter {V : Type} (f : V -> V) (m : gmap ChatID V) chat_id other :
  contains (alter f chat_id m) other = contains m other.
Proof.
  unfold contains. destruct (decide (chat_id = other)) as [->|Hne].
  - rewrite lookup_alter_eq. by destruct (m !! other).
  - by rewrite lookup_alter_ne.
Qed.

Lemma active_true st chat_id :
  active st chat_id = true <->
  contains (chat_to_job st) chat_id = true /\ contains (chat_to_setting st) chat_id = true.
Proof. unfold active. apply andb_true_iff. Qed.

Lemma inactive_guard st chat_id :
  active st chat_id = false <->
  negb (contains (chat_to_job st) chat_id) || negb (contains (chat_to_setting st) chat_id) = true.
Proof.
  unfold active.
  destruct (contains (chat_to_job st) chat_id), (contains (chat_to_setting st) chat_id); by cbn.
Qed.

(** ** What a computation leaves untouched *)

Lemma stable_ret {A : Type} (P : state -> Prop) (a : A) : stable P (mret a).
Proof. by intros st HP. Qed.

Lemma stable_raise {A : Type} (P : state -> Prop) (e : exn) : stable P (@raise E A e).
Proof. by intros st HP. Qed.

Lemma stable_emit (P : state -> Prop) (ev : event) : stable P (emit ev).
Proof. by intros st HP. Qed.

Lemma stable_modify (P : state -> Prop) (f : state -> state) :
  (forall st, P st -> P (f st)) -> stable P (modify f).
Proof. intros Hf st HP. by apply Hf. Qed.

Lemma stable_bind {A B : Type} (P : state -> Prop) (m : Aio A) (k : A -> Aio B) :
  stable P m -> (forall a, stable P (k a)) -> stable P (m ≫= k).
Proof.
  intros Hm Hk st HP. specialize (Hm st HP).
  unfold mbind, Aio_bind. destruct (m st) as [[[a|e] st1] ev1]; cbn in *; [|done].
  specialize (Hk a st1 Hm). by destruct (k a st1) as [[r st2] ev2].
Qed.

Lemma stable_get (P : state -> Prop) {B : Type} (k : state -> Aio B) :
  (forall st0, stable P (k st0)) -> stable P (get_state ≫= k).
Proof. intros Hk. apply stable_bind; [by intros st HP | done]. Qed.

Lemma stable_try_except {A : Type} (P : state -> Prop) (body : Aio A) (handler : exn -> Aio A) :
  stable P body -> (forall e, stable P (handler e)) -> stable P (try_except body handler).
Proof.
  intros Hb Hh st HP. specialize (Hb st HP).
  unfold try_except. destruct (body st) as [[[a|e] st1] ev1]; cbn in *; [done|].
  specialize (Hh e st1 Hb). by destruct (handler e st1) as [[r st2] ev2].
Qed.

Lemma stable_try_finally {A : Type} (P : state -> Prop) (body : Aio A) (final : Aio unit) :
  stable P body -> stable P final -> stable P (try_finally body final).
Proof.
  intros Hb Hf st HP. specialize (Hb st HP).
  unfold try_finally. destruct (body st) as [[r st1] ev1]; cbn in *.
  specialize (Hf st1 Hb). by destruct (final st1) as [[[u|e] st2] ev2].
Qed.

Lemma stable_call_parse (P : state -> Prop) (name : pyval) :
  world_blind P -> stable P (call_parse name).
Proof.
  intros Hw st HP. unfold call_parse.
  destruct (parse name (world st)) as [r w]. by apply Hw.
Qed.

Lemma stable_call_send_photo (P : state -> Prop) chat_id (image_bytes : bytes) :
  world_blind P -> stable P (call_send_photo chat_id image_bytes).
Proof.
  intros Hw st HP. unfold call_send_photo.
  destruct (bot_send_photo chat_id image_bytes (world st)) as [r w]. by apply Hw.
Qed.

Lemma stable_call_send_message (P : state -> Prop) chat_id (text : string) :
  world_blind P -> stable P (call_send_message chat_id text).
Proof.
  intros Hw st HP. unfold call_send_message.
  destruct (bot_send_message chat_id text (world st)) as [r w]. by apply Hw.
Qed.

Lemma stable_asyncio_sleep (P : state -> Prop) (delay : pyval) :
  stable P (asyncio_sleep delay).
Proof. by intros st HP. Qed.

Lemma stable_send (P : state -> Prop) chat_id (name : pyval) (only_picture only_text : bool) :
  world_blind P -> stable P (_send chat_id name only_picture only_text).
Proof.
  intros Hw. unfold _send. apply stable_bind; [by apply stable_call_parse|].
  intros [image_bytes text]. apply stable_bind.
  - destruct (negb only_text); [by apply stable_call_send_photo | apply stable_ret].
  - intros _. destruct (negb only_picture); [by apply stable_call_send_message | apply stable_ret].
Qed.

(** ** Cancelling a runner *)

(** A pass that is cancelled inside its try block: the log entry, then the
    sleep of the finally clause, then the task is done. *)
Lemma pass_end_cancelled st h :
  pass_end h (Raise CancelledError) st =
    match tasks st !! h with
    | Some t =>
        (set_tasks (alter (set_status (Done match sleep_result (replay_delay t) with
                                            | Ok _ => CancelledError
                                            | Raise e => e
                                            end)) h) st,
         [EvLog DEBUG LogSenderCancelled; EvSleep (replay_delay t)])
    | None =>
        (set_tasks (alter (set_status (Done KeyError)) h) st,
         [EvLog DEBUG LogSenderCancelled])
    end.
Proof.
  unfold pass_end, settle, try_finally, try_except, sender_except, sender_finally, frame,
    asyncio_sleep, emit, raise, get_state, mbind, mret, Aio_bind, Aio_ret. cbn.
  destruct (tasks st !! h) as [t|]; cbn; [|done].
  by destruct (sleep_result (replay_delay t)) as [[]|e].
Qed.

Lemma keeps_chat_cancel : keeps_chat cancel_task.
Proof. intros t. unfold cancel_task. by destruct (task_status_of t). Qed.

Lemma keeps_chat_set_status (status : task_status) : keeps_chat (set_status status).
Proof. by intros t. Qed.

(** What cancelling task [h] leaves untouched: whatever survives an update
    of the entry of [h] in the task table and an update of [awaiting]. *)
Lemma stable_cancel (P : state -> Prop) h :
  (forall f st, keeps_chat f -> P st -> P (set_tasks (alter f h) st)) ->
  (forall st, P st -> P (set_awaiting (delete h) st)) ->
  stable P (cancel_and_stop_task h).
Proof.
  intros Htasks Hawaiting st HP. unfold cancel_and_stop_task.
  destruct (waiting_in_send st h) as [p|].
  - rewrite pass_end_cancelled. cbn.
    destruct (tasks st !! h) as [t|]; cbn;
      by apply Htasks; [apply keeps_chat_set_status | apply Hawaiting].
  - cbn. by apply Htasks; [apply keeps_chat_cancel|].
Qed.

(** ** Starting a job *)

Lemma repeat_delay_unbound : assoc "repeat_delay" module_globals = None.
Proof. reflexivity. Qed.

Lemma start_task_present st job_info :
  contains (chat_to_job st) (pi_chat_id job_info) = true \/
  contains (chat_to_setting st) (pi_chat_id job_info) = true ->
  _start_task job_info st = (Ok tt, st, []).
Proof.
  intros H. aio_unfold. cbn.
  destruct (contains (chat_to_job st) _), (contains (chat_to_setting st) _); cbn; try done.
  by destruct H.
Qed.

(** C2. [_start_task] for a tenant that neither registry holds spawns the
    runner and stores its handle in [chat_to_job], then raises [NameError]
    where it reads the unbound name [repeat_delay]: the assignment to
    [chat_to_setting] is never reached, and no settings entry exists
    afterwards. *)
Theorem start_task_absent_raises st job_info :
  contains (chat_to_job st) (pi_chat_id job_info) = false ->
  contains (chat_to_setting st) (pi_chat_id job_info) = false ->
  exists st',
    _start_task job_info st = (Raise (NameError "repeat_delay"), st', []) /\
    chat_to_job st' = <[pi_chat_id job_info := length (tasks st)]> (chat_to_job st) /\
    chat_to_setting st' = chat_to_setting st /\
    chat_to_setting st' !! pi_chat_id job_info = None /\
    tasks st' = tasks st ++ [mkTask (pi_chat_id job_info) None PNone Created].
Proof.
  intros Hjob Hsetting. aio_unfold. cbn. rewrite Hjob, Hsetting. cbn.
  eexists. split; [reflexivity|]. cbn.
  repeat split. by apply contains_false.
Qed.

(** C3. After [_start_task] on a new instance the tenant has an entry in
    [chat_to_job] and none in [chat_to_setting]: the two registries do not
    hold the same tenants. *)
Theorem start_task_breaks_pairing (w : World) job_info :
  let st' := (_start_task job_info (init w)).1.2 in
  contains (chat_to_job st') (pi_chat_id job_info) = true /\
  contains (chat_to_setting st') (pi_chat_id job_info) = false.
Proof.
  cbn. split.
  - apply contains_insert.
  - reflexivity.
Qed.

(** ** Stopping a job *)

Lemma stable_get_state (P : state -> Prop) : stable P get_state.
Proof. by intros st HP. Qed.

Ltac stable_go :=
  repeat first
    [ apply stable_ret | apply stable_raise | apply stable_emit
    | apply stable_asyncio_sleep | apply stable_get_state
    | apply stable_send | apply stable_call_send_message
    | apply stable_bind; [|intros ?]
    | apply stable_try_except; [|intros ?]
    | apply stable_try_finally
    | case_match ].

Lemma task_done_world_blind h : world_blind (fun st => task_done st h).
Proof. by intros w st HP. Qed.

Lemma task_done_alter st h h' (f : task -> task) :
  (forall t, task_status_of (f t) = task_status_of t) ->
  task_done st h -> task_done (set_tasks (alter f h') st) h.
Proof.
  intros Hf (t & outcome & Hlookup & Hstatus). unfold task_done. cbn.
  destruct (decide (h' = h)) as [->|Hne].
  - exists (f t), outcome. rewrite list_lookup_alter_eq, Hlookup. cbn. by rewrite Hf.
  - exists t, outcome. by rewrite list_lookup_alter_ne.
Qed.

Lemma task_done_cancel st h h' :
  task_done st h -> task_done (set_tasks (alter cancel_task h') st) h.
Proof.
  intros (t & outcome & Hlookup & Hstatus). unfold task_done. cbn.
  destruct (decide (h' = h)) as [->|Hne].
  - exists t, outcome. rewrite list_lookup_alter_eq, Hlookup. cbn.
    unfold cancel_task. by rewrite Hstatus.
  - exists t, outcome. by rewrite list_lookup_alter_ne.
Qed.

Lemma task_done_spawn st h (t : task) :
  task_done st h -> task_done (set_tasks (fun ts => ts ++ [t]) st) h.
Proof.
  intros (t0 & outcome & Hlookup & Hstatus). exists t0, outcome. cbn.
  split; [|done]. by apply lookup_app_l_Some.
Qed.

Lemma stable_done_assign_iter h h' (it : option (list pyval)) :
  stable (fun st => task_done st h) (assign_local_names_iter h' it).
Proof. apply stable_modify. intros st. by apply task_done_alter. Qed.

Lemma stable_done_assign_delay h h' (delay : pyval) :
  stable (fun st => task_done st h) (assign_replay_delay h' delay).
Proof. apply stable_modify. intros st. by apply task_done_alter. Qed.

Lemma stable_done_spawn h chat_id :
  stable (fun st => task_done st h) (run_background_task chat_id).
Proof. intros st. apply task_done_spawn. Qed.

Lemma task_done_awaiting st h (f : gmap handle await_point -> gmap handle await_point) :
  task_done st h -> task_done (set_awaiting f st) h.
Proof. done. Qed.

Lemma task_done_set_status st h h' (outcome : exn) :
  task_done st h -> task_done (set_tasks (alter (set_status (Done outcome)) h') st) h.
Proof.
  intros (t & outcome0 & Hlookup & Hstatus). unfold task_done. cbn.
  destruct (decide (h' = h)) as [->|Hne].
  - exists (set_status (Done outcome) t), outcome. by rewrite list_lookup_alter_eq, Hlookup.
  - exists t, outcome0. by rewrite list_lookup_alter_ne.
Qed.

Lemma stable_done_cancel h h' :
  stable (fun st => task_done st h) (cancel_and_stop_task h').
Proof.
  intros st Hdone. unfold cancel_and_stop_task.
  destruct (waiting_in_send st h') as [p|].
  - rewrite pass_end_cancelled. cbn.
    destruct (tasks st !! h') as [t|]; cbn; by apply task_done_set_status.
  - by apply task_done_cancel.
Qed.

Lemma stable_done_start h job_info :
  stable (fun st => task_done st h) (_start_task job_info).
Proof. unfold _start_task, load_global. stable_go. apply stable_done_spawn. Qed.

Lemma stable_done_stop h chat_id :
  stable (fun st => task_done st h) (_stop_task chat_id).
Proof. unfold _stop_task. stable_go. apply stable_done_cancel. Qed.

Lemma stable_done_names h chat_id (raw : option string) :
  stable (fun st => task_done st h) (_names chat_id raw).
Proof. unfold _names, names_rejected. stable_go; apply task_done_world_blind. Qed.

Lemma stable_done_repeat_delay h chat_id (raw : option string) :
  stable (fun st => task_done st h) (_repeat_delay chat_id raw).
Proof. unfold _repeat_delay. stable_go. Qed.

Lemma stable_done_polling h : stable (fun st => task_done st h) _polling.
Proof.
  unfold _polling. stable_go.
  - apply stable_done_spawn.
  - apply stable_done_cancel.
  - apply stable_done_names.
Qed.

Lemma stable_done_generate h : stable (fun st => task_done st h) _generate.
Proof. unfold _generate. stable_go. apply task_done_world_blind. Qed.

Lemma stable_done_iteration h h' chat_id :
  stable (fun st => task_done st h) (sender_iteration h' chat_id).
Proof.
  unfold sender_iteration, sender_except, sender_finally, frame, next_name.
  stable_go;
    first [ apply task_done_world_blind
          | apply stable_done_assign_iter
          | apply stable_done_assign_delay ].
Qed.

Lemma stable_done_callback_checker h : stable (fun st => task_done st h) callback_checker.
Proof.
  unfold callback_checker. apply stable_bind; [apply stable_done_polling|].
  intros _. apply stable_done_generate.
Qed.

(** A task that is done is never resumed. *)
Lemma sender_wake_done st h : task_done st h -> sender_wake h st = (st, []).
Proof.
  intros (t & outcome & Hlookup & Hstatus). unfold sender_wake.
  by rewrite Hlookup, Hstatus.
Qed.

Lemma settle_keeps_done h h' (r : result unit) st (evs : list event) :
  h' <> h -> task_done st h -> task_done (settle h' (r, st, evs)).1 h.
Proof.
  intros Hne (t & outcome & Hlookup & Hstatus). exists t, outcome. cbn.
  by rewrite list_lookup_alter_ne.
Qed.

Lemma sender_wake_keeps_done st h h' :
  task_done st h -> task_done (sender_wake h' st).1 h.
Proof.
  intros Hdone. destruct (decide (h' = h)) as [->|Hne].
  - by rewrite sender_wake_done.
  - unfold sender_wake. destruct (tasks st !! h') as [t|]; [|done].
    destruct (task_status_of t); [| |done].
    + pose proof (stable_bind (fun st => task_done st h) (sender_prologue h')
        (fun _ => sender_iteration h' (task_chat t))) as Hstable.
      specialize (Hstable (ltac:(unfold sender_prologue; stable_go; apply stable_done_assign_iter))
                          (fun _ => stable_done_iteration h h' (task_chat t)) st Hdone).
      destruct ((sender_prologue h';; sender_iteration h' (task_chat t)) st) as [[r st1] evs].
      by apply settle_keeps_done.
    + pose proof (stable_done_iteration h h' (task_chat t) st Hdone) as Hstable.
      destruct (sender_iteration h' (task_chat t) st) as [[r st1] evs].
      by apply settle_keeps_done.
Qed.

(** Whatever the end of a pass of task [h] preserves: a property that
    survives every update of the entry of [h] in the task table. *)
Lemma pass_end_invariant (P : state -> Prop) st h (outcome : result unit) :
  (forall f st', keeps_chat f -> P st' -> P (set_tasks (alter f h) st')) ->
  P st -> P (pass_end h outcome st).1.
Proof.
  intros Htasks Hinit.
  assert (stable P (try_finally
                      (try_except (fun st0 => (outcome, st0, [])) (sender_except h))
                      (sender_finally h))) as Hstable.
  { unfold sender_except, sender_finally, frame, assign_local_names_iter.
    apply stable_try_finally; [apply stable_try_except|].
    - by intros st' HP.
    - intros e. stable_go; try done. apply stable_modify. intros st'. by apply Htasks.
    - stable_go. }
  specialize (Hstable st Hinit). unfold pass_end.
  destruct (try_finally _ _ st) as [[r st1] evs]. by apply Htasks.
Qed.

(** The same for the steps of a pass: the property must not read the outside
    world either, and must not depend on who waits inside [_send]. *)
Lemma sender_begin_invariant (P : state -> Prop) st h :
  world_blind P ->
  (forall f st', keeps_chat f -> P st' -> P (set_tasks (alter f h) st')) ->
  (forall p st', P st' -> P (set_awaiting <[h := p]> st')) ->
  P st -> P (sender_begin h st).1.
Proof.
  intros Hworld Htasks Hawaiting Hinit. unfold sender_begin.
  destruct (tasks st !! h) as [t|]; [|done].
  destruct (waiting_in_send st h) as [p|]; [done|].
  assert (forall status : task_status,
            stable P ((match status with
                       | Created => sender_prologue h
                       | _ => mret tt
                       end);;
                      assign_replay_delay h (PInt 5);;
                      sender_head h (task_chat t))) as Hstable.
  { intros status.
    unfold sender_prologue, sender_head, frame, next_name, assign_local_names_iter,
      assign_replay_delay.
    stable_go; try done; apply stable_modify; intros st'; by apply Htasks. }
  assert (forall m : Aio (option pyval),
            stable P m ->
            P (match m st with
               | (Ok (Some name), st1, ev1) =>
                   (set_awaiting <[h := AwaitParse (or_placeholder name)]> st1,
                    ev1 ++ [EvParse (or_placeholder name)])
               | (Ok None, st1, ev1) =>
                   let '(st2, ev2) := pass_end h (Ok tt) st1 in (st2, ev1 ++ ev2)
               | (Raise e, st1, ev1) =>
                   let '(st2, ev2) := pass_end h (Raise e) st1 in (st2, ev1 ++ ev2)
               end).1) as Hcases.
  { intros m Hm. specialize (Hm st Hinit).
    destruct (m st) as [[[[name|]|e] st1] ev1]; cbn in *.
    - by apply Hawaiting.
    - pose proof (pass_end_invariant P st1 h (Ok tt) Htasks Hm) as Hend.
      by destruct (pass_end h (Ok tt) st1).
    - pose proof (pass_end_invariant P st1 h (Raise e) Htasks Hm) as Hend.
      by destruct (pass_end h (Raise e) st1). }
  destruct (task_status_of t) as [| |outcome] eqn:Hstatus; [| |done].
  - apply Hcases, (Hstable Created).
  - apply Hcases, (Hstable Suspended).
Qed.

Lemma sender_resume_invariant (P : state -> Prop) st h :
  world_blind P ->
  (forall f st', keeps_chat f -> P st' -> P (set_tasks (alter f h) st')) ->
  (forall p st', P st' -> P (set_awaiting <[h := p]> st')) ->
  (forall st', P st' -> P (set_awaiting (delete h) st')) ->
  P st -> P (sender_resume h st).1.
Proof.
  intros Hworld Htasks Hawaiting Hdelete Hinit. unfold sender_resume.
  destruct (tasks st !! h) as [t|]; [|done].
  destruct (waiting_in_send st h) as [p|]; [|done].
  assert (forall w outcome,
            P (pass_end h outcome (set_world w (set_awaiting (delete h) st))).1) as Hend.
  { intros w outcome. apply pass_end_invariant; [done|]. by apply Hworld, Hdelete. }
  assert (forall w p', P (set_awaiting <[h := p']> (set_world w (set_awaiting (delete h) st))))
    as Hnext.
  { intros w p'. by apply Hawaiting, Hworld, Hdelete. }
  destruct p as [name|image_bytes text|text]; cbn.
  all: repeat match goal with
         | |- context [parse ?n ?w] => destruct (parse n w) as [[[? ?]|] ?]
         | |- context [bot_send_photo ?c ?b ?w] => destruct (bot_send_photo c b w) as [[|] ?]
         | |- context [bot_send_message ?c ?b ?w] => destruct (bot_send_message c b w) as [[|] ?]
         end; first [apply Hend | apply Hnext].
Qed.

(** Whatever a wake of task [h] preserves: a property that does not read the
    outside world and survives every update of the entry of [h] in the task
    table. *)
Lemma sender_wake_invariant (P : state -> Prop) st h :
  world_blind P ->
  (forall f st', keeps_chat f -> P st' -> P (set_tasks (alter f h) st')) ->
  P st -> P (sender_wake h st).1.
Proof.
  intros Hworld Htasks Hinit.
  assert (stable P (sender_prologue h)) as Hprologue.
  { unfold sender_prologue, assign_local_names_iter. stable_go.
    apply stable_modify. intros st'. by apply Htasks. }
  assert (forall chat_id, stable P (sender_iteration h chat_id)) as Hiteration.
  { intros chat_id.
    unfold sender_iteration, sender_except, sender_finally, frame, next_name,
      assign_local_names_iter, assign_replay_delay.
    stable_go; try done; apply stable_modify; intros st'; by apply Htasks. }
  unfold sender_wake. destruct (tasks st !! h) as [t|]; [|done].
  destruct (task_status_of t); [| |done].
  - pose proof (stable_bind P (sender_prologue h) (fun _ => sender_iteration h (task_chat t))
                  Hprologue (fun _ => Hiteration (task_chat t)) st Hinit) as Hrun.
    destruct ((sender_prologue h;; sender_iteration h (task_chat t)) st) as [[r st1] evs].
    by apply Htasks.
  - pose proof (Hiteration (task_chat t) st Hinit) as Hrun.
    destruct (sender_iteration h (task_chat t) st) as [[r st1] evs].
    by apply Htasks.
Qed.

Lemma waiting_in_send_done st h : task_done st h -> waiting_in_send st h = None.
Proof.
  intros (t & outcome & Hlookup & Hstatus). unfold waiting_in_send.
  by rewrite Hlookup, Hstatus.
Qed.

Lemma sender_begin_done st h : task_done st h -> sender_begin h st = (st, []).
Proof.
  intros Hdone. unfold sender_begin. rewrite (waiting_in_send_done st h Hdone).
  destruct Hdone as (t & outcome & Hlookup & Hstatus). by rewrite Hlookup, Hstatus.
Qed.

Lemma sender_resume_done st h : task_done st h -> sender_resume h st = (st, []).
Proof.
  intros Hdone. unfold sender_resume. rewrite (waiting_in_send_done st h Hdone).
  by destruct (tasks st !! h).
Qed.

Lemma task_done_other st h h' (f : task -> task) :
  h' <> h -> task_done st h -> task_done (set_tasks (alter f h') st) h.
Proof.
  intros Hne (t & outcome & Hlookup & Hstatus). exists t, outcome. cbn.
  by rewrite list_lookup_alter_ne.
Qed.

Lemma sender_begin_keeps_done st h h' :
  task_done st h -> task_done (sender_begin h' st).1 h.
Proof.
  intros Hdone. destruct (decide (h' = h)) as [->|Hne].
  - by rewrite sender_begin_done.
  - apply (sender_begin_invariant (fun st' => task_done st' h)).
    + apply task_done_world_blind.
    + intros f st' _. by apply task_done_other.
    + by intros f st'.
    + done.
Qed.

Lemma sender_resume_keeps_done st h h' :
  task_done st h -> task_done (sender_resume h' st).1 h.
Proof.
  intros Hdone. destruct (decide (h' = h)) as [->|Hne].
  - by rewrite sender_resume_done.
  - apply (sender_resume_invariant (fun st' => task_done st' h)).
    + apply task_done_world_blind.
    + intros f st' _. by apply task_done_other.
    + by intros p st'.
    + by intros st'.
    + done.
Qed.

Lemma step_keeps_done st h (a : action) : task_done st h -> task_done (step a st).1 h.
Proof.
  intros Hdone. destruct a as [|h'|h'|h'|cmd|cmd]; cbn.
  - unfold supervisor_cycle. pose proof (stable_done_callback_checker h st Hdone) as Hstable.
    by destruct (callback_checker st) as [[r st1] evs].
  - destruct (waiting_in_send st h'); [done|]. by apply sender_wake_keeps_done.
  - by apply sender_begin_keeps_done.
  - by apply sender_resume_keeps_done.
  - done.
  - done.
Qed.

Lemma run_keeps_done (schedule : list action) st h :
  task_done st h -> task_done (run schedule st) h.
Proof.
  revert st. induction schedule as [|a rest IH]; intros st Hdone; cbn; [done|].
  apply IH. by apply step_keeps_done.
Qed.

Lemma stop_task_inactive st chat_id :
  active st chat_id = false -> _stop_task chat_id st = (Ok tt, st, []).
Proof.
  intros Hinactive. apply inactive_guard in Hinactive.
  unfold _stop_task, get_state, mbind, Aio_bind. by rewrite Hinactive.
Qed.

Lemma stop_task_active st chat_id h :
  active st chat_id = true -> chat_to_job st !! chat_id = Some h ->
  _stop_task chat_id st =
    cancel_and_stop_task h
      (set_chat_to_setting (delete chat_id) (set_chat_to_job (delete chat_id) st)).
Proof.
  intros Hactive Hjob.
  assert (negb (contains (chat_to_job st) chat_id)
          || negb (contains (chat_to_setting st) chat_id) = false) as Hguard.
  { apply active_true in Hactive as [-> ->]. done. }
  unfold _stop_task, get_state, modify, mbind, Aio_bind. rewrite Hguard, Hjob. cbn.
  by destruct (cancel_and_stop_task h _) as [[r st1] evs].
Qed.

(** Cancelling a task changes neither registry and neither queue. *)
Lemma cancel_keeps_registries st h :
  chat_to_job (cancel_and_stop_task h st).1.2 = chat_to_job st /\
  chat_to_setting (cancel_and_stop_task h st).1.2 = chat_to_setting st /\
  POLLING_QUEUE (cancel_and_stop_task h st).1.2 = POLLING_QUEUE st /\
  GENERATE_QUEUE (cancel_and_stop_task h st).1.2 = GENERATE_QUEUE st.
Proof.
  by apply (stable_cancel
              (fun st' =>
                 chat_to_job st' = chat_to_job st /\
                 chat_to_setting st' = chat_to_setting st /\
                 POLLING_QUEUE st' = POLLING_QUEUE st /\
                 GENERATE_QUEUE st' = GENERATE_QUEUE st)).
Qed.

(** A runner whose tenant has no settings entry does not dispatch: it leaves
    its loop through [CancelledError]. *)
Lemma sender_wake_unregistered st h (t : task) :
  tasks st !! h = Some t ->
  chat_to_setting st !! task_chat t = None ->
  requested (sender_wake h st).2 = [] /\ outbound (sender_wake h st).2 = [].
Proof.
  intros Ht Hsetting. unfold sender_wake. rewrite Ht.
  destruct (task_status_of t); [| |done].
  - wake_unfold. cbn. rewrite Hsetting. cbn.
    by rewrite !list_lookup_alter_eq, Ht.
  - wake_unfold. cbn. rewrite Hsetting. cbn.
    by rewrite !list_lookup_alter_eq, Ht.
Qed.

(** ** The runner's cycle *)

(** One wake moves the runner's cursor as [cursor_step] does and requests
    content for the names [cursor_step] lists, whatever the collaborators
    answer. *)
Lemma sender_wake_cursor st h chat_id (names : list pyval) (it : option (list pyval)) :
  runner_at st h chat_id names it ->
  runner_at (sender_wake h st).1 h chat_id names (cursor_step names it).2 /\
  requested (sender_wake h st).2 = (cursor_step names it).1 /\
  ((cursor_step names it).1 = [] -> outbound (sender_wake h st).2 = []).
Proof.
  intros [(t & Ht & Hchat & Hst) (d & Hset & Hnum)].
  unfold sender_wake. rewrite Ht.
  destruct Hst as [[Hs Hit] | [Hs Hit]]; rewrite Hs.
  - wake_unfold. cbn. rewrite Hchat, Hset. cbn.
    rewrite !list_lookup_alter_eq, Ht. cbn. rewrite Hit.
    destruct it as [[|name rest]|]; cbn.
    + wake_crunch Ht Hnum. split; [runner_finish Ht Hset | done].
    + wake_crunch Ht Hnum; (split; [runner_finish Ht Hset | done]).
    + wake_crunch Ht Hnum. split; [runner_finish Ht Hset | done].
  - subst it. wake_unfold. cbn. rewrite Hchat, Hset. cbn.
    wake_crunch Ht Hnum. split; [runner_finish Ht Hset | done].
Qed.

(** Wake number [k] requests what the cursor on its own lists for step
    [k]. *)
Lemma wake_events_cursor (k : nat) st h chat_id (names : list pyval)
    (it : option (list pyval)) :
  runner_at st h chat_id names it ->
  requested (wake_events h k st) = cursor_dispatch names it k /\
  (cursor_dispatch names it k = [] -> outbound (wake_events h k st) = []).
Proof.
  revert st it. induction k as [|k IH]; intros st it Hrunner; cbn.
  - by apply (sender_wake_cursor st h chat_id names it).
  - apply IH. by apply (sender_wake_cursor st h chat_id names it).
Qed.




Lemma sender_wake_not_live st h :
  live st h = false -> sender_wake h st = (st, []).
Proof.
  unfold live, sender_wake. destruct (tasks st !! h) as [t|]; [|done].
  by destruct (task_status_of t).
Qed.

Lemma wake_events_not_live (k : nat) st h :
  live st h = false -> wake_events h k st = [] /\ after_wakes h k st = st.
Proof.
  intros Hdead. induction k as [|k IH]; cbn; by rewrite (sender_wake_not_live st h Hdead).
Qed.







(** ** Configuring a job *)

Lemma names_rejected_run st chat_id (value : pyval) :
  names_rejected chat_id value st =
    let '(sent, w) := bot_send_message chat_id names_error_text (world st) in
    (if sent then Ok tt else Raise (OtherException "bot.send_message"),
     set_world w st,
     EvSendMessage chat_id names_error_text ::
       if sent then [EvLog WARNING (LogNamesError value)] else []).
Proof.
  unfold names_rejected, call_send_message, emit, mbind, Aio_bind.
  by destruct (bot_send_message chat_id names_error_text (world st)) as [[|] w].
Qed.

Lemma names_accepted_run st chat_id (text : string) (new_names : list pyval) :
  json_loads text = Ok (PList new_names) ->
  _names chat_id (Some text) st =
    (Ok tt,
     if active st chat_id
     then set_chat_to_setting (alter (set_names new_names) chat_id) st
     else st,
     []).
Proof.
  intros Hloads. unfold _names, active. rewrite Hloads.
  unfold get_state, modify, mbind, mret, Aio_bind, Aio_ret.
  by destruct (contains (chat_to_job st) chat_id), (contains (chat_to_setting st) chat_id).
Qed.

(** [_names] by the way it reads the payload. *)
Lemma names_run st chat_id (raw : option string) :
  _names chat_id raw st =
    match read_names raw with
    | NamesAbsent => (Raise TypeError, st, [])
    | NamesRaised e => (Raise e, st, [])
    | NamesRejected value => names_rejected chat_id value st
    | NamesAccepted new_names =>
        (Ok tt,
         if active st chat_id
         then set_chat_to_setting (alter (set_names new_names) chat_id) st
         else st,
         [])
    end.
Proof.
  destruct raw as [text|]; [|done]. unfold read_names.
  destruct (json_loads text) as [value|e] eqn:Hloads.
  - destruct value; try (by unfold _names; rewrite Hloads).
    by apply names_accepted_run.
  - unfold _names. rewrite Hloads. by destruct (caught_by_names e).
Qed.

(** C5, as the code has it. With a payload on which [json.loads] raises an
    exception that the except clause catches ([JSONDecodeError], [ValueError]),
    or that decodes to something that is not a list, [_names] calls
    [bot.send_message] for the tenant with the error text; when that call
    returns it writes the warning and returns, and when that call raises, its
    exception leaves [_names] and no warning is written. With a payload on
    which [json.loads] raises any other exception ([RecursionError] for a text
    nested too deep), that exception leaves [_names]: nothing is sent, nothing
    is logged. In all these cases both registries and the tasks stay as they
    were. With a payload that decodes to a list and an active tenant [_names]
    replaces the tenant's names by that list, keeps the delay, and causes no
    event. *)
Theorem names_spec st chat_id (text : string) :
  (forall value,
     (exists e, json_loads text = Raise e /\ caught_by_names e = true /\ value = PStr text) \/
     json_loads text = Ok value /\ (forall items, value <> PList items) ->
     exists sent w,
       bot_send_message chat_id names_error_text (world st) = (sent, w) /\
       _names chat_id (Some text) st =
         (if sent then Ok tt else Raise (OtherException "bot.send_message"),
          set_world w st,
          EvSendMessage chat_id names_error_text ::
            if sent then [EvLog WARNING (LogNamesError value)] else []) /\
       chat_to_job (set_world w st) = chat_to_job st /\
       chat_to_setting (set_world w st) = chat_to_setting st /\
       tasks (set_world w st) = tasks st) /\
  (forall e,
     json_loads text = Raise e ->
     caught_by_names e = false ->
     _names chat_id (Some text) st = (Raise e, st, [])) /\
  (forall new_names job,
     json_loads text = Ok (PList new_names) ->
     active st chat_id = true ->
     chat_to_setting st !! chat_id = Some job ->
     exists st',
       _names chat_id (Some text) st = (Ok tt, st', []) /\
       chat_to_setting st' = alter (set_names new_names) chat_id (chat_to_setting st) /\
       chat_to_setting st' !! chat_id = Some (mkSenderJob (repeat_delay job) new_names) /\
       chat_to_job st' = chat_to_job st).
Proof.
  split; [|split].
  - intros value Hvalue.
    destruct (bot_send_message chat_id names_error_text (world st)) as [sent w] eqn:Hsend.
    exists sent, w. split; [done|]. split; [|done].
    assert (_names chat_id (Some text) st = names_rejected chat_id value st) as ->.
    { unfold _names. destruct Hvalue as [(e & -> & -> & ->) | [-> Hnot_list]]; [done|].
      destruct value; try done. by destruct (Hnot_list items). }
    by rewrite names_rejected_run, Hsend.
  - intros e Hloads Hcaught. unfold _names. by rewrite Hloads, Hcaught.
  - intros new_names job Hloads Hactive Hjob.
    rewrite (names_accepted_run st chat_id text new_names Hloads), Hactive.
    eexists. split; [reflexivity|]. cbn. split; [done|]. split; [|done].
    by rewrite lookup_alter_eq, Hjob.
Qed.

Lemma repeat_delay_inactive st chat_id (raw : option string) :
  active st chat_id = false -> _repeat_delay chat_id raw st = (Ok tt, st, []).
Proof.
  intros Hinactive. apply inactive_guard in Hinactive.
  unfold _repeat_delay, get_state, mbind, Aio_bind. by rewrite Hinactive.
Qed.

Lemma repeat_delay_active st chat_id (raw : option string) :
  active st chat_id = true ->
  _repeat_delay chat_id raw st =
    (Ok tt,
     set_chat_to_setting (alter (set_repeat_delay (time_parse (or_standard raw))) chat_id) st,
     []).
Proof.
  intros Hactive.
  assert (negb (contains (chat_to_job st) chat_id)
          || negb (contains (chat_to_setting st) chat_id) = false) as Hguard.
  { apply active_true in Hactive as [-> ->]. done. }
  unfold _repeat_delay, get_state, mbind, Aio_bind. by rewrite Hguard.
Qed.

(** C7. For an active tenant, and a delay parser that reads 15m as 900 and
    2h as 7200, [_repeat_delay] with an absent or empty raw delay stores 900
    and with the raw delay 2h stores 7200; the names stay, nothing is sent or
    logged. *)
Theorem repeat_delay_spec st chat_id job :
  time_parse "15m" = PInt 900 ->
  time_parse "2h" = PInt 7200 ->
  active st chat_id = true ->
  chat_to_setting st !! chat_id = Some job ->
  (forall raw, raw = None \/ raw = Some "" ->
     exists st',
       _repeat_delay chat_id raw st = (Ok tt, st', []) /\
       chat_to_setting st' !! chat_id = Some (mkSenderJob (PInt 900) (names job))) /\
  (exists st',
     _repeat_delay chat_id (Some "2h") st = (Ok tt, st', []) /\
     chat_to_setting st' !! chat_id = Some (mkSenderJob (PInt 7200) (names job))).
Proof.
  intros Hdefault Hhours Hactive Hjob. split.
  - intros raw Hraw. rewrite (repeat_delay_active st chat_id raw Hactive).
    eexists. split; [reflexivity|]. cbn. rewrite lookup_alter_eq, Hjob. cbn.
    unfold set_repeat_delay, or_standard, STANDARD_REPLAY_DELAY.
    destruct Hraw as [-> | ->]; cbn; by rewrite Hdefault.
  - rewrite (repeat_delay_active st chat_id (Some "2h") Hactive).
    eexists. split; [reflexivity|]. cbn. rewrite lookup_alter_eq, Hjob. cbn.
    unfold set_repeat_delay. by rewrite Hhours.
Qed.


Lemma run_bind {A B : Type} (m : Aio A) (k : A -> Aio B) st :
  (m ≫= k) st =
    match m st with
    | (Ok a, st1, ev1) => let '(r, st2, ev2) := k a st1 in (r, st2, ev1 ++ ev2)
    | (Raise e, st1, ev1) => (Raise e, st1, ev1)
    end.
Proof. reflexivity. Qed.

Lemma run_get {B : Type} (k : state -> Aio B) st : (get_state ≫= k) st = k st st.
Proof.
  unfold get_state, mbind, Aio_bind. by destruct (k st st) as [[r st2] ev2].
Qed.

Lemma run_modify {B : Type} (f : state -> state) (k : unit -> Aio B) st :
  (modify f ≫= k) st = k tt (f st).
Proof.
  unfold modify, mbind, Aio_bind. by destruct (k tt (f st)) as [[r st2] ev2].
Qed.

Lemma polling_settings_run st cmd (rest : list PollingInfo) :
  POLLING_QUEUE st = cmd :: rest ->
  pi_command cmd = SETTINGS ->
  _polling st =
    (_names (pi_chat_id cmd) (ci_names (pi_command_info cmd));;
     _repeat_delay (pi_chat_id cmd) (ci_delay (pi_command_info cmd)))
      (set_POLLING_QUEUE rest st).
Proof.
  intros Hqueue Hcommand. unfold _polling.
  by rewrite run_get, Hqueue, run_modify, Hcommand.
Qed.

(** C6, as the code has it. A Configure command for a tenant that is not
    active takes the command off the queue and leaves both registries and the
    tasks as they were, so no job is created. When the names payload is absent
    ([json.loads] raises [TypeError]) or [json.loads] raises another exception
    that the except clause of [_names] does not catch, that exception ends the
    command and nothing is sent; when the payload decodes to a list, the
    command returns and nothing is sent. When [json.loads] raises an exception
    that the clause catches, or the payload decodes to something that is not a
    list, the names check comes before the test for an active tenant: exactly
    one message goes out, the error text to that tenant. *)
Theorem configure_inactive st cmd (rest : list PollingInfo) :
  POLLING_QUEUE st = cmd :: rest ->
  pi_command cmd = SETTINGS ->
  active st (pi_chat_id cmd) = false ->
  exists r w evs,
    _polling st = (r, set_world w (set_POLLING_QUEUE rest st), evs) /\
    chat_to_job (set_world w (set_POLLING_QUEUE rest st)) = chat_to_job st /\
    chat_to_setting (set_world w (set_POLLING_QUEUE rest st)) = chat_to_setting st /\
    tasks (set_world w (set_POLLING_QUEUE rest st)) = tasks st /\
    (read_names (ci_names (pi_command_info cmd)) = NamesAbsent ->
     r = Raise TypeError /\ evs = []) /\
    (forall e,
       read_names (ci_names (pi_command_info cmd)) = NamesRaised e ->
       r = Raise e /\ evs = []) /\
    (forall new_names,
       read_names (ci_names (pi_command_info cmd)) = NamesAccepted new_names ->
       r = Ok tt /\ evs = []) /\
    (forall value,
       read_names (ci_names (pi_command_info cmd)) = NamesRejected value ->
       outbound evs = [EvSendMessage (pi_chat_id cmd) names_error_text]).
Proof.
  intros Hqueue Hcommand Hinactive.
  rewrite (polling_settings_run st cmd rest Hqueue Hcommand), run_bind, names_run.
  assert (forall w : World, active (set_world w (set_POLLING_QUEUE rest st)) (pi_chat_id cmd) = false)
    as Hstill by done.
  destruct (read_names (ci_names (pi_command_info cmd))) as [|new_names|value|e].
  - exists (Raise TypeError), (world st), []. destruct st. cbn. repeat split; done.
  - assert (active (set_POLLING_QUEUE rest st) (pi_chat_id cmd) = false) as -> by done.
    rewrite (repeat_delay_inactive _ _ _ (Hstill (world st))).
    exists (Ok tt), (world st), []. destruct st. cbn. repeat split; done.
  - rewrite names_rejected_run. cbn.
    destruct (bot_send_message (pi_chat_id cmd) names_error_text (world st))
      as [[|] w].
    + rewrite (repeat_delay_inactive _ _ _ (Hstill w)).
      eexists _, w, _. split; [reflexivity|]. repeat split; done.
    + eexists _, w, _. split; [reflexivity|]. repeat split; done.
  - exists (Raise e), (world st), []. destruct st. cbn. repeat split; congruence.
Qed.

(** ** Generation commands *)

Lemma generate_run st cmd (rest : list GenerateInfo) :
  GENERATE_QUEUE st = cmd :: rest ->
  _generate st =
    _send (gi_chat_id cmd) (gi_first_name cmd)
      match gi_command cmd with PICTURE => true | _ => false end
      match gi_command cmd with TEXT => true | _ => false end
      (set_GENERATE_QUEUE rest st).
Proof.
  intros Hqueue. unfold _generate. by rewrite run_get, Hqueue, run_modify.
Qed.

(** C8, as the code has it. For every generation command at the head of
    the queue, [_generate] requests content for the command's name, or for the
    placeholder when the name is absent ([None]); a name that is a string is
    passed on as it is, the empty string included. When the content provider
    fails, its exception leaves [_generate] and nothing is sent. When it
    answers, the photo alone is sent for Picture, the text alone for Text, and
    for any other kind the photo and, once that call has returned, the text;
    when the photo call raises, the text is not sent. *)
Theorem generate_spec st cmd (rest : list GenerateInfo) :
  GENERATE_QUEUE st = cmd :: rest ->
  requested (_generate st).2 = [or_placeholder (gi_first_name cmd)] /\
  (gi_first_name cmd = PNone -> requested (_generate st).2 = [PStr placeholder_name]) /\
  (forall name, gi_first_name cmd = PStr name -> requested (_generate st).2 = [PStr name]) /\
  (forall w,
     parse (or_placeholder (gi_first_name cmd)) (world st) = (None, w) ->
     (_generate st).1.1 = Raise (OtherException "parse") /\
     outbound (_generate st).2 = []) /\
  (forall image_bytes text w,
     parse (or_placeholder (gi_first_name cmd)) (world st) = (Some (image_bytes, text), w) ->
     (gi_command cmd = PICTURE ->
        outbound (_generate st).2 = [EvSendPhoto (gi_chat_id cmd) image_bytes]) /\
     (gi_command cmd = TEXT ->
        outbound (_generate st).2 = [EvSendMessage (gi_chat_id cmd) text]) /\
     (gi_command cmd <> PICTURE -> gi_command cmd <> TEXT ->
        (bot_send_photo (gi_chat_id cmd) image_bytes w).1 = true ->
        outbound (_generate st).2 =
          [EvSendPhoto (gi_chat_id cmd) image_bytes; EvSendMessage (gi_chat_id cmd) text]) /\
     (gi_command cmd <> PICTURE -> gi_command cmd <> TEXT ->
        (bot_send_photo (gi_chat_id cmd) image_bytes w).1 = false ->
        (_generate st).1.1 = Raise (OtherException "bot.send_photo") /\
        outbound (_generate st).2 = [EvSendPhoto (gi_chat_id cmd) image_bytes])).
Proof.
  intros Hqueue. rewrite (generate_run st cmd rest Hqueue).
  assert (requested
            (_send (gi_chat_id cmd) (gi_first_name cmd)
               match gi_command cmd with PICTURE => true | _ => false end
               match gi_command cmd with TEXT => true | _ => false end
               (set_GENERATE_QUEUE rest st)).2
          = [or_placeholder (gi_first_name cmd)]) as Hrequested.
  { unfold _send, call_parse, call_send_photo, call_send_message, mbind, mret,
      Aio_bind, Aio_ret. cbn.
    destruct (parse (or_placeholder (gi_first_name cmd)) (world st)) as [[[? ?]|] ?];
      [|done]. cbn.
    destruct (gi_command cmd); cbn;
      repeat match goal with
        | |- context [bot_send_photo ?c ?b ?w0] =>
            destruct (bot_send_photo c b w0) as [[|] ?]; cbn
        | |- context [bot_send_message ?c ?b ?w0] =>
            destruct (bot_send_message c b w0) as [[|] ?]; cbn
        end; done. }
  split; [done|]. split; [by intros Hname; rewrite Hrequested, Hname|].
  split; [by intros name Hname; rewrite Hrequested, Hname|].
  unfold _send, call_parse, call_send_photo, call_send_message, mbind, mret,
    Aio_bind, Aio_ret. cbn.
  split.
  - intros w Hparse. by rewrite Hparse.
  - intros image_bytes text w Hparse. rewrite Hparse. cbn.
    split; [|split; [|split]].
    + intros ->. cbn.
      by destruct (bot_send_photo (gi_chat_id cmd) image_bytes w) as [[|] ?].
    + intros ->. cbn.
      by destruct (bot_send_message (gi_chat_id cmd) text w) as [[|] ?].
    + intros Hpicture Htext.
      destruct (gi_command cmd); try done; cbn;
        destruct (bot_send_photo (gi_chat_id cmd) image_bytes w) as [[|] w1]; cbn; try done;
        intros _; by destruct (bot_send_message (gi_chat_id cmd) text w1) as [[|] ?].
    + intros Hpicture Htext.
      destruct (gi_command cmd); try done; cbn;
        by destruct (bot_send_photo (gi_chat_id cmd) image_bytes w) as [[|] w1].
Qed.

(** ** The supervisor's cycle *)

Lemma stable_polling_queue_start (q : list PollingInfo) job_info :
  stable (fun st => POLLING_QUEUE st = q) (_start_task job_info).
Proof. unfold _start_task, load_global. stable_go; by intros st. Qed.

Lemma stable_polling_queue_stop (q : list PollingInfo) chat_id :
  stable (fun st => POLLING_QUEUE st = q) (_stop_task chat_id).
Proof. unfold _stop_task. stable_go; first [by intros st | by apply stable_cancel]. Qed.

Lemma stable_polling_queue_names (q : list PollingInfo) chat_id (raw : option string) :
  stable (fun st => POLLING_QUEUE st = q) (_names chat_id raw).
Proof. unfold _names, names_rejected. stable_go; by intros w st. Qed.

Lemma stable_polling_queue_delay (q : list PollingInfo) chat_id (raw : option string) :
  stable (fun st => POLLING_QUEUE st = q) (_repeat_delay chat_id raw).
Proof. unfold _repeat_delay. stable_go. Qed.

Lemma stable_generate_queue_start (q : list GenerateInfo) job_info :
  stable (fun st => GENERATE_QUEUE st = q) (_start_task job_info).
Proof. unfold _start_task, load_global. stable_go; by intros st. Qed.

Lemma stable_generate_queue_stop (q : list GenerateInfo) chat_id :
  stable (fun st => GENERATE_QUEUE st = q) (_stop_task chat_id).
Proof. unfold _stop_task. stable_go; first [by intros st | by apply stable_cancel]. Qed.

Lemma stable_generate_queue_names (q : list GenerateInfo) chat_id (raw : option string) :
  stable (fun st => GENERATE_QUEUE st = q) (_names chat_id raw).
Proof. unfold _names, names_rejected. stable_go; by intros w st. Qed.

Lemma stable_generate_queue_delay (q : list GenerateInfo) chat_id (raw : option string) :
  stable (fun st => GENERATE_QUEUE st = q) (_repeat_delay chat_id raw).
Proof. unfold _repeat_delay. stable_go. Qed.

(** [_polling] takes at most one command, the one at the head of its queue,
    and never touches the generation queue. *)
Lemma polling_takes_one st :
  POLLING_QUEUE (_polling st).1.2 = tail (POLLING_QUEUE st) /\
  GENERATE_QUEUE (_polling st).1.2 = GENERATE_QUEUE st.
Proof.
  unfold _polling. rewrite run_get.
  destruct (POLLING_QUEUE st) as [|cmd rest] eqn:Hqueue; [done|].
  rewrite run_modify. cbn [tail].
  destruct (pi_command cmd).
  - split.
    + by apply (stable_polling_queue_start rest cmd (set_POLLING_QUEUE rest st)).
    + by apply (stable_generate_queue_start (GENERATE_QUEUE st) cmd (set_POLLING_QUEUE rest st)).
  - split.
    + by apply (stable_polling_queue_stop rest _ (set_POLLING_QUEUE rest st)).
    + by apply (stable_generate_queue_stop (GENERATE_QUEUE st) _ (set_POLLING_QUEUE rest st)).
  - split.
    + apply (stable_bind (fun st => POLLING_QUEUE st = rest)); [|intros _|done].
      * apply stable_polling_queue_names.
      * apply stable_polling_queue_delay.
    + apply (stable_bind (fun st0 => GENERATE_QUEUE st0 = GENERATE_QUEUE st)); [|intros _|done].
      * apply stable_generate_queue_names.
      * apply stable_generate_queue_delay.
Qed.

(** [_generate] takes at most one command, the one at the head of its queue,
    and never touches the polling queue. *)
Lemma generate_takes_one st :
  GENERATE_QUEUE (_generate st).1.2 = tail (GENERATE_QUEUE st) /\
  POLLING_QUEUE (_generate st).1.2 = POLLING_QUEUE st.
Proof.
  unfold _generate. rewrite run_get.
  destruct (GENERATE_QUEUE st) as [|cmd rest] eqn:Hqueue; [done|].
  rewrite run_modify. cbn [tail]. split.
  - apply (stable_send (fun st => GENERATE_QUEUE st = rest)); [by intros w st0|done].
  - apply (stable_send (fun st0 => POLLING_QUEUE st0 = POLLING_QUEUE st)); [by intros w st0|done].
Qed.

(** C9, as the code has it. A cycle runs [_polling] first, which takes at
    most the head of the polling queue and leaves the generation queue alone.
    When [_polling] returns, [_generate] runs on the state it left, takes at
    most the head of the generation queue, and its events follow those of
    [_polling]. When [_polling] raises, the cycle ends with that exception:
    [_generate] is not run, its queue stays as it was. *)
Theorem callback_checker_spec st :
  exists r1 st1 ev1,
    _polling st = (r1, st1, ev1) /\
    POLLING_QUEUE st1 = tail (POLLING_QUEUE st) /\
    GENERATE_QUEUE st1 = GENERATE_QUEUE st /\
    match r1 with
    | Ok _ =>
        exists r2 st2 ev2,
          _generate st1 = (r2, st2, ev2) /\
          callback_checker st = (r2, st2, ev1 ++ ev2) /\
          generation_ran st st2 /\
          POLLING_QUEUE st2 = tail (POLLING_QUEUE st)
    | Raise e =>
        callback_checker st = (Raise e, st1, ev1) /\
        GENERATE_QUEUE (callback_checker st).1.2 = GENERATE_QUEUE st
    end.
Proof.
  pose proof (polling_takes_one st) as [Hpolling Hgenerate].
  unfold callback_checker. rewrite run_bind.
  destruct (_polling st) as [[[[]|e] st1] ev1]; cbn in *.
  - exists (Ok tt), st1, ev1. repeat split; try done.
    pose proof (generate_takes_one st1) as [Hgenerate' Hpolling'].
    destruct (_generate st1) as [[r2 st2] ev2]; cbn in *.
    exists r2, st2, ev2. repeat split; try done.
    + unfold generation_ran. by rewrite Hgenerate', Hgenerate.
    + by rewrite Hpolling', Hpolling.
  - exists (Raise e), st1, ev1. by repeat split.
Qed.

(** ** What the registries never do *)

Lemma start_task_absent_run st job_info :
  contains (chat_to_job st) (pi_chat_id job_info) = false ->
  contains (chat_to_setting st) (pi_chat_id job_info) = false ->
  _start_task job_info st =
    (Raise (NameError "repeat_delay"),
     set_chat_to_job <[pi_chat_id job_info := length (tasks st)]>
       (set_tasks (fun ts => ts ++ [mkTask (pi_chat_id job_info) None PNone Created]) st),
     []).
Proof.
  intros Hjob Hsetting. aio_unfold. cbn. by rewrite Hjob, Hsetting.
Qed.

(** [_start_task] never writes to [chat_to_setting]. *)
Lemma start_task_keeps_settings st job_info :
  chat_to_setting (_start_task job_info st).1.2 = chat_to_setting st.
Proof.
  destruct (contains (chat_to_job st) (pi_chat_id job_info)) eqn:Hjob.
  { rewrite start_task_present; [done | by left]. }
  destruct (contains (chat_to_setting st) (pi_chat_id job_info)) eqn:Hsetting.
  { rewrite start_task_present; [done | by right]. }
  by rewrite start_task_absent_run.
Qed.

Lemma stable_unregistered_stop chat_id other :
  stable (fun st => chat_to_setting st !! chat_id = None) (_stop_task other).
Proof.
  unfold _stop_task. stable_go; try by apply stable_cancel.
  apply stable_modify. intros st Hnone. cbn.
  destruct (decide (other = chat_id)) as [->|Hne].
  - apply lookup_delete_eq.
  - by rewrite lookup_delete_ne.
Qed.

Lemma stable_unregistered_names chat_id other (raw : option string) :
  stable (fun st => chat_to_setting st !! chat_id = None) (_names other raw).
Proof.
  unfold _names, names_rejected. stable_go; try by intros w st.
  apply stable_modify. intros st Hnone. cbn. by apply lookup_alter_None.
Qed.

Lemma stable_unregistered_delay chat_id other (raw : option string) :
  stable (fun st => chat_to_setting st !! chat_id = None) (_repeat_delay other raw).
Proof.
  unfold _repeat_delay. stable_go.
  apply stable_modify. intros st Hnone. cbn. by apply lookup_alter_None.
Qed.

Lemma stable_unregistered_polling chat_id :
  stable (fun st => chat_to_setting st !! chat_id = None) _polling.
Proof.
  intros st Hnone. unfold _polling. rewrite run_get.
  destruct (POLLING_QUEUE st) as [|cmd rest]; [done|].
  rewrite run_modify. destruct (pi_command cmd).
  - by rewrite start_task_keeps_settings.
  - by apply stable_unregistered_stop.
  - apply (stable_bind (fun st => chat_to_setting st !! chat_id = None)); [|intros _|done].
    + apply stable_unregistered_names.
    + apply stable_unregistered_delay.
Qed.

Lemma stable_unregistered_generate chat_id :
  stable (fun st => chat_to_setting st !! chat_id = None) _generate.
Proof. unfold _generate. stable_go. by intros w st. Qed.

(** A wake of a runner changes neither registry and neither queue. *)
Lemma sender_wake_keeps_registries st h :
  chat_to_job (sender_wake h st).1 = chat_to_job st /\
  chat_to_setting (sender_wake h st).1 = chat_to_setting st /\
  POLLING_QUEUE (sender_wake h st).1 = POLLING_QUEUE st /\
  GENERATE_QUEUE (sender_wake h st).1 = GENERATE_QUEUE st.
Proof.
  assert (forall (P : state -> Prop) h' chat_id,
            world_blind P -> (forall f st', P st' -> P (set_tasks f st')) ->
            stable P (sender_prologue h') /\ stable P (sender_iteration h' chat_id))
    as Hstable.
  { intros P h' chat_id Hworld Htasks. split.
    - unfold sender_prologue, assign_local_names_iter. stable_go.
      apply stable_modify. intros st'. apply Htasks.
    - unfold sender_iteration, sender_except, sender_finally, frame, next_name,
        assign_local_names_iter,
        assign_replay_delay.
      stable_go; try done; apply stable_modify; intros st'; apply Htasks. }
  set (P := fun st' : state =>
              chat_to_job st' = chat_to_job st /\
              chat_to_setting st' = chat_to_setting st /\
              POLLING_QUEUE st' = POLLING_QUEUE st /\
              GENERATE_QUEUE st' = GENERATE_QUEUE st).
  assert (P st) as Hinit by done.
  assert (world_blind P) as Hworld by (by intros w st').
  assert (forall f st', P st' -> P (set_tasks f st')) as Htasks by (by intros f st').
  change (P (sender_wake h st).1).
  unfold sender_wake. destruct (tasks st !! h) as [t|]; [|done].
  destruct (task_status_of t); [| |done].
  - destruct (Hstable P h (task_chat t) Hworld Htasks) as [Hprologue Hiteration].
    pose proof (stable_bind P (sender_prologue h) (fun _ => sender_iteration h (task_chat t))
                  Hprologue (fun _ => Hiteration) st Hinit) as Hrun.
    destruct ((sender_prologue h;; sender_iteration h (task_chat t)) st) as [[r st1] evs].
    by apply Htasks.
  - destruct (Hstable P h (task_chat t) Hworld Htasks) as [_ Hiteration].
    pose proof (Hiteration st Hinit) as Hrun.
    destruct (sender_iteration h (task_chat t) st) as [[r st1] evs].
    by apply Htasks.
Qed.

(** So do the steps of a pass. *)
Lemma sender_begin_keeps_registries st h :
  chat_to_job (sender_begin h st).1 = chat_to_job st /\
  chat_to_setting (sender_begin h st).1 = chat_to_setting st /\
  POLLING_QUEUE (sender_begin h st).1 = POLLING_QUEUE st /\
  GENERATE_QUEUE (sender_begin h st).1 = GENERATE_QUEUE st.
Proof.
  apply (sender_begin_invariant
           (fun st' =>
              chat_to_job st' = chat_to_job st /\
              chat_to_setting st' = chat_to_setting st /\
              POLLING_QUEUE st' = POLLING_QUEUE st /\
              GENERATE_QUEUE st' = GENERATE_QUEUE st));
    [by intros w st' | by intros f st' _ | by intros f st' | done].
Qed.

Lemma sender_resume_keeps_registries st h :
  chat_to_job (sender_resume h st).1 = chat_to_job st /\
  chat_to_setting (sender_resume h st).1 = chat_to_setting st /\
  POLLING_QUEUE (sender_resume h st).1 = POLLING_QUEUE st /\
  GENERATE_QUEUE (sender_resume h st).1 = GENERATE_QUEUE st.
Proof.
  apply (sender_resume_invariant
           (fun st' =>
              chat_to_job st' = chat_to_job st /\
              chat_to_setting st' = chat_to_setting st /\
              POLLING_QUEUE st' = POLLING_QUEUE st /\
              GENERATE_QUEUE st' = GENERATE_QUEUE st));
    [by intros w st' | by intros f st' _ | by intros p st' | by intros st' | done].
Qed.

Lemma step_keeps_unregistered st chat_id (a : action) :
  chat_to_setting st !! chat_id = None ->
  chat_to_setting (step a st).1 !! chat_id = None.
Proof.
  intros Hnone. destruct a as [|h|h|h|cmd|cmd]; cbn; try done.
  - unfold supervisor_cycle.
    pose proof (stable_bind (fun st => chat_to_setting st !! chat_id = None)
                  _polling (fun _ => _generate)
                  (stable_unregistered_polling chat_id)
                  (fun _ => stable_unregistered_generate chat_id) st Hnone) as Hrun.
    unfold callback_checker. by destruct ((_polling;; _generate) st) as [[r st1] evs].
  - destruct (waiting_in_send st h); [done|].
    destruct (sender_wake_keeps_registries st h) as (_ & -> & _). done.
  - destruct (sender_begin_keeps_registries st h) as (_ & -> & _). done.
  - destruct (sender_resume_keeps_registries st h) as (_ & -> & _). done.
Qed.

Lemma run_keeps_unregistered (schedule : list action) st chat_id :
  chat_to_setting st !! chat_id = None ->
  chat_to_setting (run schedule st) !! chat_id = None.
Proof.
  revert st. induction schedule as [|a rest IH]; intros st Hnone; cbn; [done|].
  apply IH. by apply step_keeps_unregistered.
Qed.

(** X1. However the supervisor's cycles, the wakes of runners and the
    arrival of commands are interleaved after [__init__], [chat_to_setting]
    stays empty, and so no tenant is ever active: the one statement that would
    add an entry is never reached. *)
Theorem settings_stay_empty (schedule : list action) (w : World) :
  chat_to_setting (run schedule (init w)) = ∅ /\
  forall chat_id, active (run schedule (init w)) chat_id = false.
Proof.
  assert (forall chat_id, chat_to_setting (run schedule (init w)) !! chat_id = None) as Hnone.
  { intros chat_id. by apply run_keeps_unregistered. }
  split.
  - by apply map_empty.
  - intros chat_id. unfold active, contains. rewrite Hnone. apply andb_false_r.
Qed.

(** ** Who waits inside [_send] *)


Lemma sender_wake_awaiting st h : awaiting (sender_wake h st).1 = awaiting st.
Proof.
  apply (sender_wake_invariant (fun st' => awaiting st' = awaiting st));
    [by intros w st' | by intros f st' _ | done].
Qed.

Lemma sender_resume_not_waiting st h :
  awaiting st !! h = None -> sender_resume h st = (st, []).
Proof.
  intros Hnone. unfold sender_resume, waiting_in_send.
  destruct (tasks st !! h) as [t|]; [|done]. rewrite Hnone.
  by destruct (task_status_of t).
Qed.

Lemma sender_resume_awaiting st h h' :
  awaiting st !! h' = None -> awaiting (sender_resume h st).1 !! h' = None.
Proof.
  intros Hnone. destruct (decide (h' = h)) as [->|Hne].
  - by rewrite sender_resume_not_waiting.
  - apply (sender_resume_invariant (fun st' => awaiting st' !! h' = None)).
    + by intros w st'.
    + by intros f st' _.
    + intros p st' H. cbn. by rewrite lookup_insert_ne.
    + intros st' H. cbn. by rewrite lookup_delete_ne.
    + done.
Qed.

(** A runner whose tenant has no settings entry does not get to [_send]. *)
Lemma sender_begin_unregistered st h (t : task) :
  tasks st !! h = Some t ->
  chat_to_setting st !! task_chat t = None ->
  awaiting (sender_begin h st).1 = awaiting st /\
  requested (sender_begin h st).2 = [] /\ outbound (sender_begin h st).2 = [].
Proof.
  intros Ht Hsetting. unfold sender_begin. rewrite Ht.
  destruct (waiting_in_send st h) as [p|]; [done|].
  destruct (task_status_of t); [| |done].
  - wake_unfold. unfold sender_head. wake_unfold. cbn. rewrite Hsetting. cbn.
    rewrite pass_end_cancelled. cbn. by rewrite !list_lookup_alter_eq, Ht.
  - wake_unfold. unfold sender_head. wake_unfold. cbn. rewrite Hsetting. cbn.
    rewrite pass_end_cancelled. cbn. by rewrite !list_lookup_alter_eq, Ht.
Qed.

Lemma sender_begin_awaiting st h h' :
  awaiting st !! h' = None ->
  awaiting (sender_begin h st).1 !! h' = None \/
  h' = h /\ exists t, tasks st !! h = Some t /\ is_Some (chat_to_setting st !! task_chat t).
Proof.
  intros Hnone. destruct (decide (h' = h)) as [->|Hne].
  - destruct (tasks st !! h) as [t|] eqn:Ht.
    + destruct (chat_to_setting st !! task_chat t) as [job|] eqn:Hsetting.
      * right. split; [done|]. exists t. by rewrite Hsetting.
      * left. by destruct (sender_begin_unregistered st h t Ht Hsetting) as [-> _].
    + left. unfold sender_begin. by rewrite Ht.
  - left. apply (sender_begin_invariant (fun st' => awaiting st' !! h' = None)).
    + by intros w st'.
    + by intros f st' _.
    + intros p st' H. cbn. by rewrite lookup_insert_ne.
    + done.
Qed.

Lemma stable_not_waiting_polling h : stable (fun st => awaiting st !! h = None) _polling.
Proof.
  unfold _polling, _start_task, load_global, _stop_task, _names, names_rejected,
    _repeat_delay.
  stable_go;
    first [ by intros w st'
          | by intros st'
          | by apply stable_modify
          | apply stable_cancel; [by intros f st' _|] ].
  intros st' Hst. cbn.
  match goal with
  | |- delete ?h0 _ !! _ = None =>
      destruct (decide (h0 = h)) as [->|Hne];
        [apply lookup_delete_eq | by rewrite lookup_delete_ne]
  end.
Qed.

Lemma stable_not_waiting_generate h : stable (fun st => awaiting st !! h = None) _generate.
Proof. unfold _generate. stable_go; first [by intros w st' | by apply stable_modify]. Qed.

(** A step puts no runner inside [_send] but one that it starts on a pass
    and whose tenant has settings. *)
Lemma step_awaiting st (a : action) h :
  awaiting st !! h = None ->
  awaiting (step a st).1 !! h = None \/
  exists t, tasks st !! h = Some t /\ is_Some (chat_to_setting st !! task_chat t).
Proof.
  intros Hnone. destruct a as [|h'|h'|h'|cmd|cmd]; cbn.
  - left. unfold supervisor_cycle.
    pose proof (stable_bind (fun st => awaiting st !! h = None) _polling (fun _ => _generate)
                  (stable_not_waiting_polling h)
                  (fun _ => stable_not_waiting_generate h) st Hnone) as Hrun.
    unfold callback_checker. by destruct ((_polling;; _generate) st) as [[r st1] evs].
  - left. destruct (waiting_in_send st h'); [done|]. by rewrite sender_wake_awaiting.
  - destruct (sender_begin_awaiting st h' h Hnone) as [Hstill | [-> Hsetting]]; auto.
  - left. by apply sender_resume_awaiting.
  - by left.
  - by left.
Qed.

Lemma run_trace_wakes_silent (schedule : list action) st :
  (forall chat_id, chat_to_setting st !! chat_id = None) ->
  (forall h, awaiting st !! h = None) ->
  Forall (fun entry => is_wake entry.1 = true ->
                       requested entry.2 = [] /\ outbound entry.2 = [])
         (run_trace schedule st).
Proof.
  revert st. induction schedule as [|a rest IH]; intros st Hnone Hidle; cbn; [constructor|].
  constructor.
  - cbn. destruct a as [|h|h|h|cmd|cmd]; try done; intros _; cbn.
    + destruct (waiting_in_send st h); [done|].
      destruct (tasks st !! h) as [t|] eqn:Ht.
      * by apply (sender_wake_unregistered st h t).
      * unfold sender_wake. by rewrite Ht.
    + destruct (tasks st !! h) as [t|] eqn:Ht.
      * by apply (sender_begin_unregistered st h t).
      * unfold sender_begin. by rewrite Ht.
    + by rewrite sender_resume_not_waiting.
  - apply IH.
    + intros chat_id. by apply step_keeps_unregistered.
    + intros h. destruct (step_awaiting st a h (Hidle h)) as [Hstill | (t & _ & Hsetting)];
        [done|]. rewrite Hnone in Hsetting. by destruct Hsetting.
Qed.

(** X2. After [__init__], whatever is scheduled, no wake of any runner,
    whole or step by step, requests content or sends anything: every runner
    finds its tenant without settings. *)
Theorem runners_never_dispatch (schedule : list action) (w : World) :
  Forall (fun entry => is_wake entry.1 = true ->
                       requested entry.2 = [] /\ outbound entry.2 = [])
         (run_trace schedule (init w)).
Proof. by apply run_trace_wakes_silent. Qed.

Lemma stable_job_names chat_id (x : option handle) other (raw : option string) :
  stable (fun st => chat_to_job st !! chat_id = x) (_names other raw).
Proof. unfold _names, names_rejected. stable_go; by intros w st. Qed.

Lemma stable_job_delay chat_id (x : option handle) other (raw : option string) :
  stable (fun st => chat_to_job st !! chat_id = x) (_repeat_delay other raw).
Proof. unfold _repeat_delay. stable_go. Qed.

Lemma stable_job_generate chat_id (x : option handle) :
  stable (fun st => chat_to_job st !! chat_id = x) _generate.
Proof. unfold _generate. stable_go. by intros w st. Qed.

Lemma polling_keeps_lock st chat_id h :
  chat_to_job st !! chat_id = Some h ->
  chat_to_setting st !! chat_id = None ->
  chat_to_job (_polling st).1.2 !! chat_id = Some h.
Proof.
  intros Hjob Hsetting. unfold _polling. rewrite run_get.
  destruct (POLLING_QUEUE st) as [|cmd rest] eqn:Hqueue; [done|].
  rewrite run_modify. destruct (pi_command cmd).
  - destruct (decide (pi_chat_id cmd = chat_id)) as [Heq|Hne].
    + rewrite start_task_present; [done|]. left. cbn. rewrite Heq.
      apply contains_true. by rewrite Hjob.
    + destruct (contains (chat_to_job st) (pi_chat_id cmd)) eqn:Hc1.
      { rewrite start_task_present; [done | by left]. }
      destruct (contains (chat_to_setting st) (pi_chat_id cmd)) eqn:Hc2.
      { rewrite start_task_present; [done | by right]. }
      rewrite start_task_absent_run by done. cbn. by rewrite lookup_insert_ne.
  - destruct (active (set_POLLING_QUEUE rest st) (pi_chat_id cmd)) eqn:Hactive.
    + destruct (decide (pi_chat_id cmd = chat_id)) as [Heq|Hne].
      { apply active_true in Hactive as [_ Hc2]. apply contains_true in Hc2 as [job Hc2].
        cbn in Hc2. rewrite Heq, Hsetting in Hc2. done. }
      apply active_true in Hactive as Hboth. destruct Hboth as [Hc1 _].
      apply contains_true in Hc1 as [h' Hc1].
      rewrite (stop_task_active _ _ h' Hactive Hc1).
      rewrite (proj1 (cancel_keeps_registries _ h')). cbn. by rewrite lookup_delete_ne.
    + by rewrite stop_task_inactive.
  - apply (stable_bind (fun st => chat_to_job st !! chat_id = Some h)); [|intros _|done].
    + apply stable_job_names.
    + apply stable_job_delay.
Qed.

Lemma step_keeps_lock st chat_id h (a : action) :
  chat_to_job st !! chat_id = Some h ->
  chat_to_setting st !! chat_id = None ->
  chat_to_job (step a st).1 !! chat_id = Some h.
Proof.
  intros Hjob Hsetting. destruct a as [|h'|h'|h'|cmd|cmd]; cbn; try done.
  - unfold supervisor_cycle, callback_checker. rewrite run_bind.
    pose proof (polling_keeps_lock st chat_id h Hjob Hsetting) as Hpolling.
    destruct (_polling st) as [[[[]|e] st1] ev1]; cbn in *; [|done].
    pose proof (stable_job_generate chat_id (Some h) st1 Hpolling) as Hgenerate.
    by destruct (_generate st1) as [[r2 st2] ev2].
  - destruct (waiting_in_send st h'); [done|].
    destruct (sender_wake_keeps_registries st h') as (-> & _). done.
  - destruct (sender_begin_keeps_registries st h') as (-> & _). done.
  - destruct (sender_resume_keeps_registries st h') as (-> & _). done.
Qed.

(** X3. A tenant that [chat_to_job] holds and [chat_to_setting] does not,
    as a Start for a new tenant leaves it, stays that way under every
    schedule: Stop and Configure take it for inactive and return, Start takes it
    for present and returns, so the handle is never removed and the tenant
    never becomes active. *)
Theorem half_started_tenant_is_stuck (schedule : list action) st chat_id h :
  chat_to_job st !! chat_id = Some h ->
  chat_to_setting st !! chat_id = None ->
  chat_to_job (run schedule st) !! chat_id = Some h /\
  chat_to_setting (run schedule st) !! chat_id = None /\
  active (run schedule st) chat_id = false.
Proof.
  revert st. induction schedule as [|a rest IH]; intros st Hjob Hsetting; cbn.
  - repeat split; try done. unfold active, contains. rewrite Hsetting. apply andb_false_r.
  - apply IH.
    + by apply step_keeps_lock.
    + by apply step_keeps_unregistered.
Qed.

(** X4. Stop and Configure keep the two registries on the same tenants:
    when every tenant is in both or in neither before [_stop_task], [_names]
    or [_repeat_delay], the same holds after it. *)
Theorem stop_and_configure_keep_pairing st chat_id (raw : option string) :
  paired st ->
  paired (_stop_task chat_id st).1.2 /\
  paired (_names chat_id raw st).1.2 /\
  paired (_repeat_delay chat_id raw st).1.2.
Proof.
  intros Hpaired. split; [|split].
  - destruct (active st chat_id) eqn:Hactive.
    + apply active_true in Hactive as Hboth. destruct Hboth as [Hc1 _].
      apply contains_true in Hc1 as [h Hc1].
      rewrite (stop_task_active _ _ h Hactive Hc1). intros other.
      destruct (cancel_keeps_registries
                  (set_chat_to_setting (delete chat_id) (set_chat_to_job (delete chat_id) st)) h)
        as (-> & -> & _). cbn.
      specialize (Hpaired other). unfold contains in *.
      destruct (decide (chat_id = other)) as [->|Hne].
      * by rewrite !lookup_delete_eq.
      * by rewrite !lookup_delete_ne.
    + by rewrite stop_task_inactive.
  - assert (stable paired (_names chat_id raw)) as Hstable; [|by apply Hstable].
    unfold _names, names_rejected. stable_go; try by intros w st'.
    apply stable_modify. intros st' Hp other. cbn. rewrite contains_alter. apply Hp.
  - assert (stable paired (_repeat_delay chat_id raw)) as Hstable; [|by apply Hstable].
    unfold _repeat_delay. stable_go.
    apply stable_modify. intros st' Hp other. cbn. rewrite contains_alter. apply Hp.
Qed.

(** ** After a job is stopped *)

Lemma bound_to_alter st h h' chat_id (f : task -> task) :
  keeps_chat f -> bound_to st h chat_id -> bound_to (set_tasks (alter f h') st) h chat_id.
Proof.
  intros Hf (t & Hlookup & Hchat). unfold bound_to. cbn.
  destruct (decide (h' = h)) as [->|Hne].
  - exists (f t). rewrite list_lookup_alter_eq, Hlookup. cbn. by rewrite Hf.
  - exists t. by rewrite list_lookup_alter_ne.
Qed.

Lemma bound_to_spawn st h chat_id (t : task) :
  bound_to st h chat_id -> bound_to (set_tasks (fun ts => ts ++ [t]) st) h chat_id.
Proof.
  intros (t0 & Hlookup & Hchat). exists t0. cbn. split; [|done].
  by apply lookup_app_l_Some.
Qed.

Lemma stable_bound_polling h chat_id : stable (fun st => bound_to st h chat_id) _polling.
Proof.
  unfold _polling, _start_task, load_global, _stop_task, _names, names_rejected,
    _repeat_delay.
  stable_go;
    first [ by intros w st'
          | by intros st'
          | by apply stable_modify
          | by intros st'; apply bound_to_spawn
          | apply stable_cancel; [intros f st'; apply bound_to_alter | by intros st'] ].
Qed.

Lemma stable_bound_generate h chat_id : stable (fun st => bound_to st h chat_id) _generate.
Proof. unfold _generate. stable_go; first [by intros w st' | by apply stable_modify]. Qed.

(** No step changes the tenant a task is bound to. *)
Lemma step_keeps_bound st (a : action) h chat_id :
  bound_to st h chat_id -> bound_to (step a st).1 h chat_id.
Proof.
  intros Hbound. destruct a as [|h'|h'|h'|cmd|cmd]; cbn; try done.
  - unfold supervisor_cycle.
    pose proof (stable_bind (fun st => bound_to st h chat_id) _polling (fun _ => _generate)
                  (stable_bound_polling h chat_id)
                  (fun _ => stable_bound_generate h chat_id) st Hbound) as Hrun.
    unfold callback_checker. by destruct ((_polling;; _generate) st) as [[r st1] evs].
  - destruct (waiting_in_send st h'); [done|].
    apply (sender_wake_invariant (fun st' => bound_to st' h chat_id));
      [by intros w st' | intros f st'; apply bound_to_alter | done].
  - apply (sender_begin_invariant (fun st' => bound_to st' h chat_id));
      [by intros w st' | intros f st'; apply bound_to_alter | by intros p st' | done].
  - apply (sender_resume_invariant (fun st' => bound_to st' h chat_id));
      [by intros w st' | intros f st'; apply bound_to_alter | by intros p st'
      | by intros st' | done].
Qed.

Lemma step_keeps_at_rest st (a : action) chat_id :
  tenant_at_rest st chat_id -> tenant_at_rest (step a st).1 chat_id.
Proof.
  intros [Hsetting Hrest]. split; [by apply step_keeps_unregistered|].
  intros h. destruct (Hrest h) as [Hnone | [(other & Hbound & Hne) | Hdone]].
  - destruct (step_awaiting st a h Hnone) as [Hstill | (t & Ht & Hsome)]; [by left|].
    right. left. exists (task_chat t). split.
    + apply step_keeps_bound. by exists t.
    + intros Heq. rewrite Heq, Hsetting in Hsome. by destruct Hsome.
  - right. left. exists other. split; [by apply step_keeps_bound | done].
  - right. right. by apply step_keeps_done.
Qed.

Lemma run_keeps_at_rest (schedule : list action) st chat_id :
  tenant_at_rest st chat_id -> tenant_at_rest (run schedule st) chat_id.
Proof.
  revert st. induction schedule as [|a rest IH]; intros st Hrest; cbn; [done|].
  apply IH. by apply step_keeps_at_rest.
Qed.

(** A runner of a tenant without settings that starts on a pass dispatches
    nothing. *)
Lemma pass_unregistered_silent st h (t : task) (a : action) :
  tasks st !! h = Some t ->
  chat_to_setting st !! task_chat t = None ->
  a = Wake h \/ a = Begin h ->
  requested (step a st).2 = [] /\ outbound (step a st).2 = [].
Proof.
  intros Ht Hsetting [-> | ->]; cbn.
  - destruct (waiting_in_send st h); [done|]. by apply (sender_wake_unregistered st h t).
  - by apply (sender_begin_unregistered st h t).
Qed.

(** No runner of a tenant at rest goes on with a pass. *)
Lemma resume_at_rest_silent st chat_id h (t : task) :
  tenant_at_rest st chat_id ->
  tasks st !! h = Some t ->
  task_chat t = chat_id ->
  sender_resume h st = (st, []).
Proof.
  intros [_ Hrest] Ht Hchat.
  destruct (Hrest h) as [Hnone | [(other & (t0 & Ht0 & Hother) & Hne) | Hdone]].
  - by apply sender_resume_not_waiting.
  - rewrite Ht in Ht0. by simplify_eq.
  - by apply sender_resume_done.
Qed.

(** What [_stop_task] does to the task it cancels. *)
Lemma cancel_run st h (t : task) :
  tasks st !! h = Some t ->
  exists r st',
    cancel_and_stop_task h st =
      (r, st',
       match waiting_in_send st h with
       | Some _ => [EvLog DEBUG LogSenderCancelled; EvSleep (replay_delay t)]
       | None => []
       end) /\
    ((forall outcome, task_status_of t <> Done outcome) ->
     (waiting_in_send st h <> None -> sleep_result (replay_delay t) = Ok tt) ->
     r = Ok tt) /\
    task_done st' h /\
    (forall h', h' <> h -> awaiting st' !! h' = awaiting st !! h') /\
    (forall h' chat_id, bound_to st h' chat_id -> bound_to st' h' chat_id).
Proof.
  intros Ht. unfold cancel_and_stop_task.
  destruct (waiting_in_send st h) as [p|] eqn:Hwaiting.
  - rewrite pass_end_cancelled. cbn. rewrite Ht. eexists _, _. split; [reflexivity|].
    split; [|split; [|split]].
    + intros _ Hsleep. unfold awaited. cbn. rewrite list_lookup_alter_eq, Ht. cbn.
      by rewrite Hsleep.
    + unfold task_done. cbn. rewrite list_lookup_alter_eq, Ht. cbn. eauto.
    + intros h' Hne. cbn. by rewrite lookup_delete_ne.
    + intros h' chat_id Hbound.
      by apply (bound_to_alter (set_awaiting (delete h) st)), Hbound.
  - eexists _, _. split; [reflexivity|]. split; [|split; [|split]].
    + intros Halive _. unfold awaited. cbn. rewrite list_lookup_alter_eq, Ht. cbn.
      unfold cancel_task.
      destruct (task_status_of t) as [| |outcome] eqn:Hstatus; cbn;
        [done | done | by destruct (Halive outcome)].
    + unfold task_done. cbn. rewrite list_lookup_alter_eq, Ht. cbn.
      unfold cancel_task. destruct (task_status_of t) eqn:Hstatus; eauto.
    + done.
    + intros h' chat_id. apply bound_to_alter, keeps_chat_cancel.
Qed.

(** C4. [_stop_task] changes nothing for a tenant that is not active. For an
    active tenant whose handle is a task of the loop it removes the tenant
    from both registries and comes back when the task is done. Wherever the
    runner waits, it makes no call for content and no transport call on the
    way: from its sleep, or not yet started, it ends without an event; from
    inside [_send] it ends through the except clause and the sleep of the
    finally clause, a log entry and that sleep being its only events.
    [_stop_task] returns when the runner had not ended before and that sleep,
    if it comes to it, is accepted. After [_stop_task] has come back, whatever
    is scheduled: the task stays done and a step of it has no effect and
    causes no event; a runner bound to the tenant that starts on a pass
    requests nothing and sends nothing; and if the cancelled task was the only
    runner of the tenant that could be waiting inside [_send], no runner bound
    to the tenant goes on with a pass either. *)
Theorem stop_task_spec st chat_id :
  (active st chat_id = false -> _stop_task chat_id st = (Ok tt, st, [])) /\
  (forall h t,
     active st chat_id = true ->
     chat_to_job st !! chat_id = Some h ->
     tasks st !! h = Some t ->
     exists r st',
       _stop_task chat_id st =
         (r, st',
          match waiting_in_send st h with
          | Some _ => [EvLog DEBUG LogSenderCancelled; EvSleep (replay_delay t)]
          | None => []
          end) /\
       ((forall outcome, task_status_of t <> Done outcome) ->
        (waiting_in_send st h <> None -> sleep_result (replay_delay t) = Ok tt) ->
        r = Ok tt) /\
       chat_to_job st' = delete chat_id (chat_to_job st) /\
       chat_to_setting st' = delete chat_id (chat_to_setting st) /\
       active st' chat_id = false /\
       task_done st' h /\
       (forall (schedule : list action) a,
          a = Wake h \/ a = Begin h \/ a = Resume h ->
          task_done (run schedule st') h /\
          step a (run schedule st') = (run schedule st', [])) /\
       (forall (schedule : list action) h' t' a,
          tasks (run schedule st') !! h' = Some t' ->
          task_chat t' = chat_id ->
          a = Wake h' \/ a = Begin h' ->
          requested (step a (run schedule st')).2 = [] /\
          outbound (step a (run schedule st')).2 = []) /\
       ((forall h',
           h' = h \/ awaiting st !! h' = None \/
           exists other, bound_to st h' other /\ other <> chat_id) ->
        forall (schedule : list action) h' t',
          tasks (run schedule st') !! h' = Some t' ->
          task_chat t' = chat_id ->
          step (Resume h') (run schedule st') = (run schedule st', []))).
Proof.
  split; [apply stop_task_inactive|].
  intros h t Hactive Hjob Htask.
  rewrite (stop_task_active st chat_id h Hactive Hjob).
  set (st0 := set_chat_to_setting (delete chat_id) (set_chat_to_job (delete chat_id) st)).
  destruct (cancel_run st0 h t Htask) as (r & st' & Hrun & Hreturn & Hdone & Hawaiting & Hbound).
  destruct (cancel_keeps_registries st0 h) as (Hjob' & Hsetting' & _).
  rewrite Hrun in Hjob', Hsetting'. cbn in Hjob', Hsetting'.
  assert (chat_to_setting st' !! chat_id = None) as Hnone.
  { rewrite Hsetting'. apply lookup_delete_eq. }
  exists r, st'. split; [done|]. split; [done|]. split; [done|]. split; [done|]. split.
  { unfold active, contains. rewrite Hnone. apply andb_false_r. }
  split; [done|]. split; [|split].
  - intros schedule a Ha.
    pose proof (run_keeps_done schedule st' h Hdone) as Hlater.
    split; [done|]. destruct Ha as [-> | [-> | ->]]; cbn.
    + rewrite (waiting_in_send_done _ _ Hlater). by apply sender_wake_done.
    + by apply sender_begin_done.
    + by apply sender_resume_done.
  - intros schedule h' t' a Ht' Hchat Ha.
    apply (pass_unregistered_silent _ h' t' a Ht'); [|done].
    rewrite Hchat. by apply run_keeps_unregistered.
  - intros Halone schedule h' t' Ht' Hchat.
    apply (resume_at_rest_silent _ chat_id h' t'); [|done|done].
    apply run_keeps_at_rest. split; [done|].
    intros h0. destruct (Halone h0) as [-> | [Hidle | (other & Hother & Hne)]].
    + by right; right.
    + destruct (decide (h0 = h)) as [->|Hne]; [by right; right|].
      left. by rewrite Hawaiting.
    + right. left. exists other. split; [|done]. by apply Hbound.
Qed.

(** ** Tenants and runners do not interfere *)

Lemma stable_other_start chat_id (x : option handle) (y : option SenderJob) job_info :
  pi_chat_id job_info <> chat_id ->
  stable (fun st => chat_to_job st !! chat_id = x /\ chat_to_setting st !! chat_id = y)
         (_start_task job_info).
Proof.
  intros Hne st [Hjob Hsetting]. rewrite start_task_keeps_settings. split; [|done].
  destruct (contains (chat_to_job st) (pi_chat_id job_info)) eqn:Hc1.
  { rewrite start_task_present; [done | by left]. }
  destruct (contains (chat_to_setting st) (pi_chat_id job_info)) eqn:Hc2.
  { rewrite start_task_present; [done | by right]. }
  rewrite start_task_absent_run by done. cbn. by rewrite lookup_insert_ne.
Qed.

Lemma stable_other_stop chat_id (x : option handle) (y : option SenderJob) other :
  other <> chat_id ->
  stable (fun st => chat_to_job st !! chat_id = x /\ chat_to_setting st !! chat_id = y)
         (_stop_task other).
Proof.
  intros Hne. unfold _stop_task. stable_go; try done; try by apply stable_cancel.
  - apply stable_modify. intros st [Hjob Hsetting]. cbn. by rewrite lookup_delete_ne.
  - apply stable_modify. intros st [Hjob Hsetting]. cbn. by rewrite lookup_delete_ne.
Qed.

Lemma stable_other_names chat_id (x : option handle) (y : option SenderJob) other
    (raw : option string) :
  other <> chat_id ->
  stable (fun st => chat_to_job st !! chat_id = x /\ chat_to_setting st !! chat_id = y)
         (_names other raw).
Proof.
  intros Hne. unfold _names, names_rejected. stable_go; try by intros w st.
  apply stable_modify. intros st [Hjob Hsetting]. cbn. by rewrite lookup_alter_ne.
Qed.

Lemma stable_other_delay chat_id (x : option handle) (y : option SenderJob) other
    (raw : option string) :
  other <> chat_id ->
  stable (fun st => chat_to_job st !! chat_id = x /\ chat_to_setting st !! chat_id = y)
         (_repeat_delay other raw).
Proof.
  intros Hne. unfold _repeat_delay. stable_go.
  apply stable_modify. intros st [Hjob Hsetting]. cbn. by rewrite lookup_alter_ne.
Qed.

(** X12. A polling command touches its own tenant only: after [_polling]
    has taken a command for one tenant, every other tenant has the handle and
    the settings it had before. *)
Theorem polling_leaves_other_tenants st cmd (rest : list PollingInfo) chat_id :
  POLLING_QUEUE st = cmd :: rest ->
  pi_chat_id cmd <> chat_id ->
  chat_to_job (_polling st).1.2 !! chat_id = chat_to_job st !! chat_id /\
  chat_to_setting (_polling st).1.2 !! chat_id = chat_to_setting st !! chat_id.
Proof.
  intros Hqueue Hne. unfold _polling. rewrite run_get, Hqueue, run_modify.
  set (P := fun st' : state =>
              chat_to_job st' !! chat_id = chat_to_job st !! chat_id /\
              chat_to_setting st' !! chat_id = chat_to_setting st !! chat_id).
  assert (P (set_POLLING_QUEUE rest st)) as Hinit by done.
  destruct (pi_command cmd).
  - by apply (stable_other_start chat_id _ _ cmd Hne).
  - by apply (stable_other_stop chat_id _ _ _ Hne).
  - apply (stable_bind P); [|intros _|done].
    + by apply stable_other_names.
    + by apply stable_other_delay.
Qed.

(** X13. A wake of a runner changes its own entry in the task table and
    nothing else of the instance: both registries, both queues, the number of
    tasks and every other task are as before. *)
Theorem sender_wake_touches_own_task_only st h :
  chat_to_job (sender_wake h st).1 = chat_to_job st /\
  chat_to_setting (sender_wake h st).1 = chat_to_setting st /\
  POLLING_QUEUE (sender_wake h st).1 = POLLING_QUEUE st /\
  GENERATE_QUEUE (sender_wake h st).1 = GENERATE_QUEUE st /\
  length (tasks (sender_wake h st).1) = length (tasks st) /\
  forall h', h' <> h -> tasks (sender_wake h st).1 !! h' = tasks st !! h'.
Proof.
  apply (sender_wake_invariant
           (fun st' =>
              chat_to_job st' = chat_to_job st /\
              chat_to_setting st' = chat_to_setting st /\
              POLLING_QUEUE st' = POLLING_QUEUE st /\
              GENERATE_QUEUE st' = GENERATE_QUEUE st /\
              length (tasks st') = length (tasks st) /\
              forall h', h' <> h -> tasks st' !! h' = tasks st !! h')).
  - by intros w st'.
  - intros f st' _ (Hjob & Hsetting & Hpolling & Hgenerate & Hlength & Hother). cbn.
    repeat split; try done.
    + by rewrite length_alter.
    + intros h' Hne. rewrite list_lookup_alter_ne by done. by apply Hother.
  - done.
Qed.

(** ** The runner's sleep and its ways out *)

(** X7. Every pass of a runner that is not done calls [asyncio.sleep] exactly
    once, as its last action, with the delay that the tenant's settings hold at
    that wake, or with 5 when the tenant has no settings; this holds whether
    the pass dispatched, failed or left the loop. *)
Theorem wake_sleeps_once_with_current_delay st h (t : task) :
  tasks st !! h = Some t ->
  (forall outcome, task_status_of t <> Done outcome) ->
  count_sleeps (sender_wake h st).2 = 1%nat /\
  last (sender_wake h st).2 = Some (EvSleep (pass_delay st t)).
Proof.
  intros Ht Halive. unfold sender_wake, pass_delay. rewrite Ht.
  destruct (task_status_of t) as [| |outcome] eqn:Hstatus; [| |by destruct (Halive outcome)].
  - wake_unfold. cbn.
    destruct (chat_to_setting st !! task_chat t) as [job|] eqn:Hsetting; cbn.
    + destruct (sleep_result (repeat_delay job)) as [[]|e] eqn:Hnum; by wake_crunch Ht Hnum.
    + by rewrite !list_lookup_alter_eq, Ht.
  - wake_unfold. cbn.
    destruct (chat_to_setting st !! task_chat t) as [job|] eqn:Hsetting; cbn.
    + rewrite !list_lookup_alter_eq, Ht. cbn.
      destruct (sleep_result (repeat_delay job)) as [[]|e] eqn:Hnum;
        destruct (local_names_iter t) as [[|name rest]|]; cbn; by wake_crunch Ht Hnum.
    + by rewrite !list_lookup_alter_eq, Ht.
Qed.

(** X15. A runner whose tenant is in no settings registry when it is resumed
    leaves its loop: it logs the cancellation, sleeps 5, and is done with
    [CancelledError], without a request for content or a message; further
    wakes of it do nothing. *)
Theorem orphaned_runner_ends st h (t : task) :
  tasks st !! h = Some t ->
  (forall outcome, task_status_of t <> Done outcome) ->
  chat_to_setting st !! task_chat t = None ->
  exists st',
    sender_wake h st =
      (st', match task_status_of t with
            | Created => [EvLog DEBUG LogSenderStarted]
            | _ => []
            end ++ [EvLog DEBUG LogSenderCancelled; EvSleep (PInt 5)]) /\
    (exists t', tasks st' !! h = Some t' /\ task_status_of t' = Done CancelledError) /\
    sender_wake h st' = (st', []).
Proof.
  intros Ht Halive Hsetting.
  assert (sleep_result (PInt 5) = Ok tt) as Hnum by done.
  unfold sender_wake at 1. rewrite Ht.
  destruct (task_status_of t) as [| |outcome] eqn:Hstatus; [| |by destruct (Halive outcome)].
  - wake_unfold. cbn. rewrite Hsetting. cbn. rewrite !list_lookup_alter_eq, Ht. cbn.
    eexists. split; [reflexivity|].
    match goal with
    | |- (exists t', tasks ?s !! h = Some t' /\ _) /\ _ =>
        assert (exists t', tasks s !! h = Some t' /\ task_status_of t' = Done CancelledError)
          as Hdone
    end.
    { cbn. rewrite !list_lookup_alter_eq, Ht. cbn. eauto. }
    split; [exact Hdone|]. apply sender_wake_done.
    destruct Hdone as (t' & Ht' & Hstatus'). by exists t', CancelledError.
  - wake_unfold. cbn. rewrite Hsetting. cbn. rewrite !list_lookup_alter_eq, Ht. cbn.
    eexists. split; [reflexivity|].
    match goal with
    | |- (exists t', tasks ?s !! h = Some t' /\ _) /\ _ =>
        assert (exists t', tasks s !! h = Some t' /\ task_status_of t' = Done CancelledError)
          as Hdone
    end.
    { cbn. rewrite !list_lookup_alter_eq, Ht. cbn. eauto. }
    split; [exact Hdone|]. apply sender_wake_done.
    destruct Hdone as (t' & Ht' & Hstatus'). by exists t', CancelledError.
Qed.

(** X8. A dispatch that fails is logged and is not tried again, and the
    failure does not end the runner. With the cursor before [name]: when the
    content provider fails, nothing is sent; when the photo call fails, the
    text is not sent; when the text call fails, the photo has gone out. In
    each case the failure is logged and the pass ends with the call of
    [asyncio.sleep] for the tenant's delay. After the pass the cursor is past
    [name], and the runner waits for its next wake if that call returned; it
    is done with the exception of that call otherwise. *)
Theorem failed_dispatch_is_logged_and_skipped st h (t : task) job
    (name : pyval) (rest : list pyval) :
  tasks st !! h = Some t ->
  task_status_of t = Suspended ->
  local_names_iter t = Some (name :: rest) ->
  chat_to_setting st !! task_chat t = Some job ->
  tasks (sender_wake h st).1 !! h =
    Some (mkTask (task_chat t) (Some rest) (repeat_delay job)
            match sleep_result (repeat_delay job) with
            | Ok _ => Suspended
            | Raise e => Done e
            end) /\
  (forall w,
     parse (or_placeholder name) (world st) = (None, w) ->
     (sender_wake h st).2 =
       [EvLog ERROR (LogName name); EvParse (or_placeholder name);
        EvLog ERROR (LogUnexpected (OtherException "parse"));
        EvSleep (repeat_delay job)]) /\
  (forall image_bytes text w w',
     parse (or_placeholder name) (world st) = (Some (image_bytes, text), w) ->
     bot_send_photo (task_chat t) image_bytes w = (false, w') ->
     (sender_wake h st).2 =
       [EvLog ERROR (LogName name); EvParse (or_placeholder name);
        EvSendPhoto (task_chat t) image_bytes;
        EvLog ERROR (LogUnexpected (OtherException "bot.send_photo"));
        EvSleep (repeat_delay job)]) /\
  (forall image_bytes text w w' w'',
     parse (or_placeholder name) (world st) = (Some (image_bytes, text), w) ->
     bot_send_photo (task_chat t) image_bytes w = (true, w') ->
     bot_send_message (task_chat t) text w' = (false, w'') ->
     (sender_wake h st).2 =
       [EvLog ERROR (LogName name); EvParse (or_placeholder name);
        EvSendPhoto (task_chat t) image_bytes; EvSendMessage (task_chat t) text;
        EvLog ERROR (LogUnexpected (OtherException "bot.send_message"));
        EvSleep (repeat_delay job)]).
Proof.
  intros Ht Hstatus Hit Hsetting.
  assert (forall X : Type, forall f : state * list event -> X,
            f (sender_wake h st) =
            f (settle h (sender_iteration h (task_chat t) st))) as Henter.
  { intros X f. unfold sender_wake. by rewrite Ht, Hstatus. }
  split; [|split; [|split]].
  - rewrite (Henter _ (fun run => tasks run.1 !! h)).
    wake_unfold. cbn. rewrite Hsetting. cbn. rewrite !list_lookup_alter_eq, Ht. cbn.
    rewrite Hit. cbn.
    destruct (sleep_result (repeat_delay job)) as [[]|e] eqn:Hnum; by wake_crunch Ht Hnum.
  - intros w Hparse. rewrite (Henter _ snd).
    wake_unfold. cbn. rewrite Hsetting. cbn. rewrite !list_lookup_alter_eq, Ht. cbn.
    rewrite Hit. cbn. rewrite Hparse.
    destruct (sleep_result (repeat_delay job)) as [[]|e] eqn:Hnum; by wake_crunch Ht Hnum.
  - intros image_bytes text w w' Hparse Hphoto. rewrite (Henter _ snd).
    wake_unfold. cbn. rewrite Hsetting. cbn. rewrite !list_lookup_alter_eq, Ht. cbn.
    rewrite Hit. cbn. rewrite Hparse. cbn. rewrite Hphoto.
    destruct (sleep_result (repeat_delay job)) as [[]|e] eqn:Hnum; by wake_crunch Ht Hnum.
  - intros image_bytes text w w' w'' Hparse Hphoto Hmessage. rewrite (Henter _ snd).
    wake_unfold. cbn. rewrite Hsetting. cbn. rewrite !list_lookup_alter_eq, Ht. cbn.
    rewrite Hit. cbn. rewrite Hparse. cbn. rewrite Hphoto. cbn. rewrite Hmessage.
    destruct (sleep_result (repeat_delay job)) as [[]|e] eqn:Hnum; by wake_crunch Ht Hnum.
Qed.

(** ** The runner's cycle for any names *)

Lemma cursor_dispatch_within (names rest : list pyval) (i : nat) (name : pyval) :
  rest !! i = Some name ->
  cursor_dispatch names (Some rest) i = [or_placeholder name].
Proof.
  revert i. induction rest as [|first rest IH]; intros i Hlookup; [done|].
  destruct i as [|i]; cbn in *.
  - by simplify_eq.
  - by apply IH.
Qed.

Lemma cursor_dispatch_past (names rest : list pyval) (j : nat) :
  cursor_dispatch names (Some rest) (length rest + j) = cursor_dispatch names (Some []) j.
Proof. induction rest as [|first rest IH]; [done|]. cbn. apply IH. Qed.

Lemma cursor_dispatch_period (names : list pyval) (k : nat) :
  cursor_dispatch names None (length names + 2 + k) = cursor_dispatch names None k.
Proof.
  replace (length names + 2 + k)%nat with (S (length names + S k)) by lia.
  cbn. by rewrite cursor_dispatch_past.
Qed.

Lemma cycle_dispatch_period (names : list pyval) (k : nat) :
  cycle_dispatch names (length names + 2 + k) = cycle_dispatch names k.
Proof.
  unfold cycle_dispatch.
  replace (length names + 2 + k)%nat with (k + 1 * (length names + 2))%nat by lia.
  by rewrite Nat.Div0.mod_add.
Qed.

Lemma cursor_dispatch_cycle (names : list pyval) (k : nat) :
  cursor_dispatch names None k = cycle_dispatch names k.
Proof.
  induction k as [k IH] using lt_wf_ind.
  destruct (decide (k < length names + 2)%nat) as [Hlt|Hge].
  - unfold cycle_dispatch. rewrite Nat.mod_small by done.
    destruct k as [|i]; [done|]. cbn.
    destruct (names !! i) as [name|] eqn:Hlookup.
    + by apply cursor_dispatch_within.
    + apply lookup_ge_None in Hlookup.
      replace i with (length names + 0)%nat by lia.
      by rewrite cursor_dispatch_past.
  - replace k with (length names + 2 + (k - (length names + 2)))%nat by lia.
    rewrite cursor_dispatch_period, cycle_dispatch_period. apply IH. lia.
Qed.

(** X5. For any names list and a delay that [asyncio.sleep] accepts, a
    runner without a cursor repeats a pass of [length names + 2] wakes: the
    first wake of a pass primes the cursor and the last finds it exhausted,
    neither requests content or sends anything, and wake [i + 1] of a pass
    requests content for item [i] of the list, under the placeholder when the
    item is [None]. *)
Theorem sender_dispatch_cycle st h chat_id (names : list pyval) (k : nat) :
  runner_at st h chat_id names None ->
  requested (wake_events h k st) = cycle_dispatch names k /\
  (cycle_dispatch names k = [] -> outbound (wake_events h k st) = []).
Proof.
  intros Hrunner. rewrite <- cursor_dispatch_cycle.
  by apply (wake_events_cursor k st h chat_id names None).
Qed.



(** ** Commands that fail, and the order of commands *)

(** X9. A generation command is taken off the queue before its dispatch
    is tried, and a failure leaves [_generate] as an exception: when the
    content provider fails nothing is sent, when the photo call fails the text
    is not sent, and in both cases the command is gone from the queue. *)
Theorem generate_failure_drops_command st cmd (rest : list GenerateInfo) :
  GENERATE_QUEUE st = cmd :: rest ->
  GENERATE_QUEUE (_generate st).1.2 = rest /\
  (forall w,
     parse (or_placeholder (gi_first_name cmd)) (world st) = (None, w) ->
     (_generate st).1.1 = Raise (OtherException "parse") /\
     (_generate st).2 = [EvParse (or_placeholder (gi_first_name cmd))]) /\
  (forall image_bytes text w w',
     parse (or_placeholder (gi_first_name cmd)) (world st) = (Some (image_bytes, text), w) ->
     gi_command cmd <> TEXT ->
     bot_send_photo (gi_chat_id cmd) image_bytes w = (false, w') ->
     (_generate st).1.1 = Raise (OtherException "bot.send_photo") /\
     (_generate st).2 =
       [EvParse (or_placeholder (gi_first_name cmd)); EvSendPhoto (gi_chat_id cmd) image_bytes]).
Proof.
  intros Hqueue. split; [|split].
  - pose proof (generate_takes_one st) as [Htail _]. by rewrite Hqueue in Htail.
  - intros w Hparse. rewrite (generate_run st cmd rest Hqueue).
    unfold _send, call_parse, mbind, Aio_bind. cbn. by rewrite Hparse.
  - intros image_bytes text w w' Hparse Hkind Hphoto.
    rewrite (generate_run st cmd rest Hqueue).
    unfold _send, call_parse, call_send_photo, call_send_message, mbind, mret,
      Aio_bind, Aio_ret. cbn. rewrite Hparse. cbn.
    destruct (gi_command cmd); try done; cbn; by rewrite Hphoto.
Qed.

Lemma polling_empty st : POLLING_QUEUE st = [] -> _polling st = (Ok tt, st, []).
Proof. intros Hqueue. unfold _polling. by rewrite run_get, Hqueue. Qed.

Lemma tail_drop {A : Type} (l : list A) : tail l = drop 1 l.
Proof. by destruct l. Qed.

Lemma cycle_queues st :
  POLLING_QUEUE (callback_checker st).1.2 = tail (POLLING_QUEUE st) /\
  (GENERATE_QUEUE (callback_checker st).1.2 = GENERATE_QUEUE st \/
   GENERATE_QUEUE (callback_checker st).1.2 = tail (GENERATE_QUEUE st)) /\
  (POLLING_QUEUE st = [] ->
   GENERATE_QUEUE (callback_checker st).1.2 = tail (GENERATE_QUEUE st)).
Proof.
  pose proof (polling_takes_one st) as [Hpolling Hgenerate].
  assert (POLLING_QUEUE st = [] ->
          GENERATE_QUEUE (callback_checker st).1.2 = tail (GENERATE_QUEUE st)) as Hempty.
  { intros Hqueue. unfold callback_checker. rewrite run_bind, (polling_empty st Hqueue).
    pose proof (generate_takes_one st) as [Htail _].
    by destruct (_generate st) as [[r2 st2] ev2]. }
  split; [|split; [|done]].
  - unfold callback_checker. rewrite run_bind.
    destruct (_polling st) as [[[[]|e] st1] ev1]; cbn in *; [|done].
    pose proof (generate_takes_one st1) as [_ Hkeep].
    destruct (_generate st1) as [[r2 st2] ev2]; cbn in *. by rewrite Hkeep.
  - unfold callback_checker. rewrite run_bind.
    destruct (_polling st) as [[[[]|e] st1] ev1]; cbn in *; [|by left].
    pose proof (generate_takes_one st1) as [Htail _].
    destruct (_generate st1) as [[r2 st2] ev2]; cbn in *. right. by rewrite Htail, Hgenerate.
Qed.

Lemma cycle_generate_queue st :
  GENERATE_QUEUE (callback_checker st).1.2 =
    match (_polling st).1.1 with
    | Ok _ => tail (GENERATE_QUEUE st)
    | Raise _ => GENERATE_QUEUE st
    end.
Proof.
  pose proof (polling_takes_one st) as [_ Hgenerate].
  unfold callback_checker. rewrite run_bind.
  destruct (_polling st) as [[[[]|e] st1] ev1]; cbn in *; [|done].
  pose proof (generate_takes_one st1) as [Htail _].
  destruct (_generate st1) as [[r2 st2] ev2]; cbn in *. by rewrite Htail, Hgenerate.
Qed.

(** X10. Over [k] cycles in a row the supervisor takes exactly the first
    [k] polling commands, in their order of arrival, whether they succeed or
    raise. Of the generation commands it takes exactly the first [j], in
    their order of arrival, where [j] is the number of those cycles whose
    polling step returned: a cycle whose polling step raised takes none. So
    [j] is at most [k], and it is [k] when no polling command is waiting. *)
Theorem cycles_drain_in_order (k : nat) st :
  POLLING_QUEUE (cycles k st) = drop k (POLLING_QUEUE st) /\
  GENERATE_QUEUE (cycles k st) = drop (generation_steps k st) (GENERATE_QUEUE st) /\
  (generation_steps k st <= k)%nat /\
  (POLLING_QUEUE st = [] -> generation_steps k st = k).
Proof.
  revert st. induction k as [|k IH]; intros st; cbn [cycles generation_steps].
  - done.
  - destruct (cycle_queues st) as (Hpolling & _ & _).
    destruct (IH (callback_checker st).1.2) as (IHpolling & IHgenerate & IHbound & IHempty).
    split; [|split; [|split]].
    + by rewrite IHpolling, Hpolling, tail_drop, drop_drop.
    + rewrite IHgenerate, cycle_generate_queue.
      destruct ((_polling st).1.1); [|done]. by rewrite tail_drop, drop_drop.
    + destruct ((_polling st).1.1); lia.
    + intros Hqueue. rewrite IHempty by (by rewrite Hpolling, Hqueue).
      by rewrite (polling_empty st Hqueue).
Qed.

(** X11. A Configure command for an active tenant applies the names and
    the delay one after the other. Names that decode to a list and the delay
    are both stored. When the names are rejected ([json.loads] raised an
    exception that the except clause of [_names] catches, or the payload
    decodes to something that is not a list) and the error message has been
    delivered, the delay is still stored and the names are kept. When the
    error message cannot be delivered, when the names are absent, or when
    [json.loads] raises an exception that the clause does not catch
    ([RecursionError]), the command ends with that exception before the delay
    is looked at, and the settings are as before; in the last two cases nothing
    is sent or logged. *)
Theorem configure_active st cmd (rest : list PollingInfo) job :
  POLLING_QUEUE st = cmd :: rest ->
  pi_command cmd = SETTINGS ->
  active st (pi_chat_id cmd) = true ->
  chat_to_setting st !! pi_chat_id cmd = Some job ->
  (forall new_names,
     read_names (ci_names (pi_command_info cmd)) = NamesAccepted new_names ->
     (_polling st).1.1 = Ok tt /\
     (_polling st).2 = [] /\
     chat_to_setting (_polling st).1.2 !! pi_chat_id cmd =
       Some (mkSenderJob (time_parse (or_standard (ci_delay (pi_command_info cmd))))
                         new_names)) /\
  (forall value w,
     read_names (ci_names (pi_command_info cmd)) = NamesRejected value ->
     bot_send_message (pi_chat_id cmd) names_error_text (world st) = (true, w) ->
     (_polling st).1.1 = Ok tt /\
     chat_to_setting (_polling st).1.2 !! pi_chat_id cmd =
       Some (mkSenderJob (time_parse (or_standard (ci_delay (pi_command_info cmd))))
                         (names job))) /\
  (forall value w,
     read_names (ci_names (pi_command_info cmd)) = NamesRejected value ->
     bot_send_message (pi_chat_id cmd) names_error_text (world st) = (false, w) ->
     (_polling st).1.1 = Raise (OtherException "bot.send_message") /\
     chat_to_setting (_polling st).1.2 !! pi_chat_id cmd = Some job) /\
  (read_names (ci_names (pi_command_info cmd)) = NamesAbsent ->
   (_polling st).1.1 = Raise TypeError /\
   (_polling st).2 = [] /\
   chat_to_setting (_polling st).1.2 !! pi_chat_id cmd = Some job) /\
  (forall e,
     read_names (ci_names (pi_command_info cmd)) = NamesRaised e ->
     (_polling st).1.1 = Raise e /\
     (_polling st).2 = [] /\
     chat_to_setting (_polling st).1.2 !! pi_chat_id cmd = Some job).
Proof.
  intros Hqueue Hcommand Hactive Hjob.
  rewrite (polling_settings_run st cmd rest Hqueue Hcommand), run_bind, names_run.
  assert (forall w : World, active (set_world w (set_POLLING_QUEUE rest st)) (pi_chat_id cmd) = true)
    as Hstill by done.
  split; [|split; [|split; [|split]]].
  - intros new_names ->.
    assert (active (set_POLLING_QUEUE rest st) (pi_chat_id cmd) = true) as -> by done.
    rewrite repeat_delay_active.
    + cbn. by rewrite !lookup_alter_eq, Hjob.
    + unfold active in *. cbn. by rewrite contains_alter.
  - intros value w -> Hsend.
    rewrite names_rejected_run. cbn.
    rewrite Hsend, (repeat_delay_active _ _ _ (Hstill w)). cbn.
    by rewrite lookup_alter_eq, Hjob.
  - intros value w -> Hsend.
    rewrite names_rejected_run. cbn.
    by rewrite Hsend.
  - by intros ->.
  - by intros e ->.
Qed.

(** ** Starting and stopping the supervisor *)

Lemma stop_again (n : nat) (sv : service) :
  _callback_task sv = None -> Nat.iter n stop sv = sv.
Proof.
  intros Hnone. induction n as [|n IH]; [done|].
  rewrite Nat.iter_succ, IH. unfold stop. rewrite Hnone. destruct sv. by simplify_eq/=.
Qed.

(** X14. [stop] cancels the loop that the last [start] spawned and clears
    [_callback_task], so a second [stop] changes nothing. [start] does not look
    at [_callback_task]: after two calls the handle of the first loop is
    overwritten, [stop] cancels the second loop only, and the first keeps
    running however often [stop] is called. *)
Theorem supervisor_start_stop (sv : service) :
  loops (stop (start sv)) !! length (loops sv) = Some (Done CancelledError) /\
  _callback_task (stop (start sv)) = None /\
  stop (stop sv) = stop sv /\
  loops (stop (start (start sv))) !! S (length (loops sv)) = Some (Done CancelledError) /\
  forall n : nat, loop_running (Nat.iter n stop (stop (start (start sv)))) (length (loops sv)).
Proof.
  split; [|split; [|split; [|split]]].
  - unfold stop, start. cbn. rewrite list_lookup_alter_eq.
    by rewrite list_lookup_middle.
  - done.
  - unfold stop. by destruct (_callback_task sv).
  - unfold stop, start. cbn. rewrite length_app. cbn.
    replace (length (loops sv) + 1)%nat with (S (length (loops sv))) by lia.
    rewrite list_lookup_alter_eq.
    rewrite (lookup_app_r _ _ (S (length (loops sv)))) by (rewrite length_app; cbn; lia).
    rewrite length_app. cbn.
    by replace (S (length (loops sv)) - (length (loops sv) + 1))%nat with 0%nat by lia.
  - intros n. rewrite stop_again by done.
    exists Created. split; [|done].
    unfold stop, start. cbn. rewrite length_app. cbn.
    rewrite list_lookup_alter_ne by lia.
    rewrite lookup_app_l by (rewrite length_app; cbn; lia).
    by rewrite list_lookup_middle.
Qed.

(** ** Who a message goes to *)

Lemma emits_ret {A : Type} (Q : event -> Prop) (a : A) : emits Q (mret a).
Proof. intros st. constructor. Qed.

Lemma emits_raise {A : Type} (Q : event -> Prop) (e : exn) : emits Q (@raise E A e).
Proof. intros st. constructor. Qed.

Lemma emits_get_state (Q : event -> Prop) : emits Q get_state.
Proof. intros st. constructor. Qed.

Lemma emits_modify (Q : event -> Prop) (f : state -> state) : emits Q (modify f).
Proof. intros st. constructor. Qed.

Lemma emits_emit (Q : event -> Prop) (ev : event) : Q ev -> emits Q (emit ev).
Proof. intros HQ st. by repeat constructor. Qed.

Lemma emits_bind {A B : Type} (Q : event -> Prop) (m : Aio A) (k : A -> Aio B) :
  emits Q m -> (forall a, emits Q (k a)) -> emits Q (m ≫= k).
Proof.
  intros Hm Hk st. specialize (Hm st). unfold mbind, Aio_bind.
  destruct (m st) as [[[a|e] st1] ev1]; cbn in *; [|done].
  specialize (Hk a st1). destruct (k a st1) as [[r st2] ev2]; cbn in *.
  by apply Forall_app.
Qed.

Lemma emits_try_except {A : Type} (Q : event -> Prop) (body : Aio A)
    (handler : exn -> Aio A) :
  emits Q body -> (forall e, emits Q (handler e)) -> emits Q (try_except body handler).
Proof.
  intros Hb Hh st. specialize (Hb st). unfold try_except.
  destruct (body st) as [[[a|e] st1] ev1]; cbn in *; [done|].
  specialize (Hh e st1). destruct (handler e st1) as [[r st2] ev2]; cbn in *.
  by apply Forall_app.
Qed.

Lemma emits_try_finally {A : Type} (Q : event -> Prop) (body : Aio A) (final : Aio unit) :
  emits Q body -> emits Q final -> emits Q (try_finally body final).
Proof.
  intros Hb Hf st. specialize (Hb st). unfold try_finally.
  destruct (body st) as [[r st1] ev1]; cbn in *.
  specialize (Hf st1). destruct (final st1) as [[[u|e] st2] ev2]; cbn in *;
    by apply Forall_app.
Qed.

Lemma emits_call_parse (Q : event -> Prop) (name : pyval) :
  Q (EvParse name) -> emits Q (call_parse name).
Proof.
  intros HQ st. unfold call_parse. destruct (parse name (world st)) as [r w].
  by repeat constructor.
Qed.

Lemma emits_call_send_photo (Q : event -> Prop) chat_id (image_bytes : bytes) :
  Q (EvSendPhoto chat_id image_bytes) -> emits Q (call_send_photo chat_id image_bytes).
Proof.
  intros HQ st. unfold call_send_photo.
  destruct (bot_send_photo chat_id image_bytes (world st)) as [r w]. by repeat constructor.
Qed.

Lemma emits_call_send_message (Q : event -> Prop) chat_id (text : string) :
  Q (EvSendMessage chat_id text) -> emits Q (call_send_message chat_id text).
Proof.
  intros HQ st. unfold call_send_message.
  destruct (bot_send_message chat_id text (world st)) as [r w]. by repeat constructor.
Qed.

Lemma emits_asyncio_sleep (Q : event -> Prop) (delay : pyval) :
  Q (EvSleep delay) -> emits Q (asyncio_sleep delay).
Proof. intros HQ st. by repeat constructor. Qed.

Ltac emits_go :=
  repeat first
    [ apply emits_ret | apply emits_raise | apply emits_get_state | apply emits_modify
    | apply emits_emit; [done]
    | apply emits_asyncio_sleep; [done]
    | apply emits_call_parse; [done]
    | apply emits_call_send_photo; [done]
    | apply emits_call_send_message; [done]
    | apply emits_bind; [|intros ?]
    | apply emits_try_except; [|intros ?]
    | apply emits_try_finally
    | case_match ].

Lemma emits_send chat_id (name : pyval) (only_picture only_text : bool) :
  emits (addressed_to chat_id) (_send chat_id name only_picture only_text).
Proof. unfold _send. emits_go. Qed.

Lemma emits_names chat_id (raw : option string) :
  emits (addressed_to chat_id) (_names chat_id raw).
Proof. unfold _names, names_rejected. emits_go. Qed.

Lemma emits_nothing_start (Q : event -> Prop) job_info : emits Q (_start_task job_info).
Proof. unfold _start_task, load_global, run_background_task. emits_go; intros st; constructor. Qed.

Lemma emits_cancel chat_id h : emits (addressed_to chat_id) (cancel_and_stop_task h).
Proof.
  intros st. unfold cancel_and_stop_task.
  destruct (waiting_in_send st h) as [p|]; [|constructor].
  rewrite pass_end_cancelled. cbn.
  destruct (tasks st !! h) as [t|]; cbn; by repeat constructor.
Qed.

Lemma emits_stop chat_id other : emits (addressed_to chat_id) (_stop_task other).
Proof. unfold _stop_task. emits_go. apply emits_cancel. Qed.

Lemma emits_nothing_delay (Q : event -> Prop) chat_id (raw : option string) :
  emits Q (_repeat_delay chat_id raw).
Proof. unfold _repeat_delay. emits_go. Qed.

Lemma emits_iteration h chat_id :
  emits (addressed_to chat_id) (sender_iteration h chat_id).
Proof.
  unfold sender_iteration, sender_except, sender_finally, frame, next_name,
    assign_local_names_iter, assign_replay_delay, _send.
  emits_go.
Qed.

(** X16. No message goes to a tenant other than the one concerned: every
    transport call of a runner's wake is for the tenant the runner was started
    for, every transport call of [_generate] is for the tenant of the command
    it took, and every transport call of [_polling] is for the tenant of the
    command it took. *)
Theorem messages_go_to_their_tenant st :
  (forall h t,
     tasks st !! h = Some t ->
     Forall (addressed_to (task_chat t)) (sender_wake h st).2) /\
  (forall cmd rest,
     GENERATE_QUEUE st = cmd :: rest ->
     Forall (addressed_to (gi_chat_id cmd)) (_generate st).2) /\
  (forall cmd rest,
     POLLING_QUEUE st = cmd :: rest ->
     Forall (addressed_to (pi_chat_id cmd)) (_polling st).2).
Proof.
  split; [|split].
  - intros h t Ht. unfold sender_wake. rewrite Ht.
    destruct (task_status_of t); [| |constructor].
    + assert (emits (addressed_to (task_chat t))
                (sender_prologue h;; sender_iteration h (task_chat t))) as Hemits.
      { apply emits_bind; [|intros _; apply emits_iteration].
        unfold sender_prologue, assign_local_names_iter. emits_go. }
      specialize (Hemits st).
      by destruct ((sender_prologue h;; sender_iteration h (task_chat t)) st) as [[r st1] evs].
    + pose proof (emits_iteration h (task_chat t) st) as Hemits.
      by destruct (sender_iteration h (task_chat t) st) as [[r st1] evs].
  - intros cmd rest Hqueue. rewrite (generate_run st cmd rest Hqueue). apply emits_send.
  - intros cmd rest Hqueue. unfold _polling. rewrite run_get, Hqueue, run_modify.
    destruct (pi_command cmd).
    + apply emits_nothing_start.
    + apply emits_stop.
    + apply emits_bind; [apply emits_names | intros _; apply emits_nothing_delay].
Qed.

(** ** A pass and its steps *)
























End Properties.

(** * The properties at concrete inputs *)





Lemma start_task_absent_raises_witness :
  exists st',
    @_start_task demo start_42 (@init demo tt) = (Raise (NameError "repeat_delay"), st', []) /\
    chat_to_job st' !! "42" = Some 0%nat /\
    chat_to_setting st' !! "42" = None.
Proof.
  destruct (@start_task_absent_raises demo (@init demo tt) start_42 eq_refl eq_refl)
    as (st' & Hrun & Hjob & _ & Hnone & _).
  exists st'. split; [exact Hrun|]. split; [|exact Hnone].
  rewrite Hjob. reflexivity.
Defined.

Lemma stop_task_spec_witness :
  @_stop_task demo "42" (@init demo tt) = (Ok tt, @init demo tt, []) /\
  (exists st',
     @_stop_task demo "42" (tenant_AB Suspended) = (Ok tt, st', []) /\
     active st' "42" = false /\
     task_done st' 0%nat /\
     forall schedule : list action,
       step (Wake 0%nat) (run schedule st') = (run schedule st', [])) /\
  (exists st',
     @_stop_task demo "42" tenant_42_in_send =
       (Ok tt, st', [EvLog DEBUG LogSenderCancelled; EvSleep (PInt 60)]) /\
     active st' "42" = false /\
     task_done st' 0%nat /\
     forall schedule : list action,
       step (Resume 0%nat) (run schedule st') = (run schedule st', [])).
Proof.
  split; [|split].
  - exact (proj1 (@stop_task_spec demo (@init demo tt) "42") eq_refl).
  - destruct (proj2 (@stop_task_spec demo (tenant_AB Suspended) "42") 0%nat
                (mkTask "42" None PNone Suspended) eq_refl eq_refl eq_refl)
      as (r & st' & Hrun & Hreturn & _ & _ & Hinactive & Hdone & Hlater & _).
    exists st'. split.
    { rewrite Hrun, Hreturn; [reflexivity | discriminate | intros Hwaiting; by destruct Hwaiting]. }
    split; [exact Hinactive|]. split; [exact Hdone|].
    intros schedule. exact (proj2 (Hlater schedule (Wake 0%nat) (or_introl eq_refl))).
  - destruct (proj2 (@stop_task_spec demo tenant_42_in_send "42") 0%nat
                (mkTask "42" (Some [PStr "B"]) (PInt 60) Suspended) eq_refl eq_refl eq_refl)
      as (r & st' & Hrun & Hreturn & _ & _ & Hinactive & Hdone & Hlater & _).
    exists st'. split.
    { rewrite Hrun, Hreturn; [reflexivity | discriminate | reflexivity]. }
    split; [exact Hinactive|]. split; [exact Hdone|].
    intros schedule.
    exact (proj2 (Hlater schedule (Resume 0%nat) (or_intror (or_intror eq_refl)))).
Defined.

Lemma names_spec_witness :
  (@_names demo "42" (Some "not-json") (tenant_AB Suspended)).2 =
    [EvSendMessage "42" names_error_text;
     EvLog WARNING (LogNamesError (PStr "not-json"))] /\
  (@_names demo "42" (Some "{}") (tenant_AB Suspended)).2 =
    [EvSendMessage "42" names_error_text; EvLog WARNING (LogNamesError (PDict []))] /\
  @_names demo "42" (Some json_text_deep) (tenant_AB Suspended) =
    (Raise RecursionError, tenant_AB Suspended, []) /\
  exists st',
    @_names demo "42" (Some json_text_AB) (tenant_42 [] Suspended) = (Ok tt, st', []) /\
    chat_to_setting st' !! "42" = Some (mkSenderJob (PInt 60) names_AB).
Proof.
  split; [|split; [|split]].
  - destruct (proj1 (@names_spec demo (tenant_AB Suspended) "42" "not-json")
                (PStr "not-json")
                (or_introl (ex_intro _ JSONDecodeError (conj eq_refl (conj eq_refl eq_refl)))))
      as (sent & w & Hsend & Hrun & _).
    rewrite Hrun. injection Hsend as <- _. reflexivity.
  - destruct (proj1 (@names_spec demo (tenant_AB Suspended) "42" "{}")
                (PDict []) (or_intror (conj eq_refl (fun items H => eq_ind (PDict [])
                   (fun v => match v with PDict _ => True | _ => False end) I _ H))))
      as (sent & w & Hsend & Hrun & _).
    rewrite Hrun. injection Hsend as <- _. reflexivity.
  - exact (proj1 (proj2 (@names_spec demo (tenant_AB Suspended) "42" json_text_deep))
             RecursionError eq_refl eq_refl).
  - destruct (proj2 (proj2 (@names_spec demo (tenant_42 [] Suspended) "42" json_text_AB))
                names_AB (mkSenderJob (PInt 60) []) eq_refl eq_refl eq_refl)
      as (st' & Hrun & _ & Hnames & _).
    exists st'. split; [exact Hrun | exact Hnames].
Defined.

(** C5 as the specification states it: a payload that is not valid JSON
    would bring the error notification and the log. The text of two thousand
    opening brackets is not valid JSON; [json.loads] raises [RecursionError]
    on it, which the except clause of [_names] does not catch, so nothing is
    sent and nothing is logged. And for a malformed payload whose notification
    cannot be delivered, the call is made and no warning is logged. *)
Lemma names_spec_counterexample :
  @json_loads demo json_text_deep = Raise RecursionError /\
  @_names demo "42" (Some json_text_deep) (tenant_AB Suspended) =
    (Raise RecursionError, tenant_AB Suspended, []) /\
  @_names (scripted true true false) "42" (Some "not-json")
      (scripted_42 true true false names_AB None) =
    (Raise (OtherException "bot.send_message"),
     scripted_42 true true false names_AB None,
     [EvSendMessage "42" names_error_text]).
Proof. repeat split. Qed.

Lemma repeat_delay_spec_witness :
  (exists st',
     @_repeat_delay demo "42" None (tenant_AB Suspended) = (Ok tt, st', []) /\
     chat_to_setting st' !! "42" = Some (mkSenderJob (PInt 900) names_AB)) /\
  (exists st',
     @_repeat_delay demo "42" (Some "") (tenant_AB Suspended) = (Ok tt, st', []) /\
     chat_to_setting st' !! "42" = Some (mkSenderJob (PInt 900) names_AB)) /\
  (exists st',
     @_repeat_delay demo "42" (Some "2h") (tenant_AB Suspended) = (Ok tt, st', []) /\
     chat_to_setting st' !! "42" = Some (mkSenderJob (PInt 7200) names_AB)).
Proof.
  destruct (@repeat_delay_spec demo (tenant_AB Suspended) "42"
              (mkSenderJob (PInt 60) names_AB) eq_refl eq_refl eq_refl eq_refl)
    as [Hdefault Hhours].
  split; [exact (Hdefault None (or_introl eq_refl))|].
  split; [exact (Hdefault (Some "") (or_intror eq_refl)) | exact Hhours].
Defined.


Lemma configure_inactive_witness :
  active (pending [configure_42 (Some json_text_AB) (Some "2h")] []) "42" = false /\
  (exists r w evs,
     @_polling demo (pending [configure_42 (Some json_text_AB) (Some "2h")] []) =
       (r, set_world w (pending [] []), evs) /\
     r = Ok tt /\ evs = []) /\
  (exists r w evs,
     @_polling demo (pending [configure_42 (Some "{}") None] []) =
       (r, set_world w (pending [] []), evs) /\
     outbound evs = [EvSendMessage "42" names_error_text]).
Proof.
  split; [reflexivity|]. split.
  - destruct (@configure_inactive demo
                (pending [configure_42 (Some json_text_AB) (Some "2h")] [])
                (configure_42 (Some json_text_AB) (Some "2h")) [] eq_refl eq_refl eq_refl)
      as (r & w & evs & Hrun & _ & _ & _ & _ & _ & Haccepted & _).
    exists r, w, evs. split; [exact Hrun|]. exact (Haccepted names_AB eq_refl).
  - destruct (@configure_inactive demo
                (pending [configure_42 (Some "{}") None] [])
                (configure_42 (Some "{}") None) [] eq_refl eq_refl eq_refl)
      as (r & w & evs & Hrun & _ & _ & _ & _ & _ & _ & Hrejected).
    exists r, w, evs. split; [exact Hrun|]. exact (Hrejected (PDict []) eq_refl).
Defined.

(** C6 as the specification states it: a Configure command for a tenant
    without a job would produce no outbound message. With a malformed names
    payload the error text goes out to that tenant. *)
Lemma configure_inactive_counterexample :
  active (pending [configure_42 (Some "not-json") None] []) "42" = false /\
  outbound (@_polling demo (pending [configure_42 (Some "not-json") None] [])).2 =
    [EvSendMessage "42" names_error_text] /\
  outbound (@_polling demo (pending [configure_42 (Some "not-json") None] [])).2 <> [].
Proof. repeat split; try reflexivity. vm_compute. discriminate. Qed.

Lemma generate_spec_witness :
  requested (@_generate demo (pending [] [generate_42 PICTURE PNone])).2 =
    [PStr placeholder_name] /\
  outbound (@_generate demo (pending [] [generate_42 PICTURE PNone])).2 =
    [EvSendPhoto "42" demo_image] /\
  outbound (@_generate demo (pending [] [generate_42 TEXT (PStr "A")])).2 =
    [EvSendMessage "42" "card"] /\
  outbound (@_generate demo (pending [] [generate_42 (OTHER_KIND "sticker") (PStr "A")])).2 =
    [EvSendPhoto "42" demo_image; EvSendMessage "42" "card"] /\
  requested (@_generate (scripted false true true)
               (scripted_pending false true true [generate_42 PICTURE (PStr "A")])).2 =
    [PStr "A"] /\
  outbound (@_generate (scripted false true true)
              (scripted_pending false true true [generate_42 PICTURE (PStr "A")])).2 = [].
Proof.
  destruct (@generate_spec demo (pending [] [generate_42 PICTURE PNone])
              (generate_42 PICTURE PNone) [] eq_refl)
    as (_ & Hplaceholder & _ & _ & Hpicture).
  destruct (@generate_spec demo (pending [] [generate_42 TEXT (PStr "A")])
              (generate_42 TEXT (PStr "A")) [] eq_refl)
    as (_ & _ & _ & _ & Htext).
  destruct (@generate_spec demo (pending [] [generate_42 (OTHER_KIND "sticker") (PStr "A")])
              (generate_42 (OTHER_KIND "sticker") (PStr "A")) [] eq_refl)
    as (_ & _ & _ & _ & Hboth).
  destruct (@generate_spec (scripted false true true)
              (scripted_pending false true true [generate_42 PICTURE (PStr "A")])
              (generate_42 PICTURE (PStr "A")) [] eq_refl)
    as (Hrequested & _ & _ & Hfailed & _).
  split; [exact (Hplaceholder eq_refl)|].
  split; [exact (proj1 (Hpicture demo_image "card" tt eq_refl) eq_refl)|].
  split; [exact (proj1 (proj2 (Htext demo_image "card" tt eq_refl)) eq_refl)|].
  split.
  { apply (proj1 (proj2 (proj2 (Hboth demo_image "card" tt eq_refl))));
      [discriminate | discriminate | reflexivity]. }
  split; [exact Hrequested | exact (proj2 (Hfailed tt eq_refl))].
Defined.

(** C8 as the specification states it: an empty name would be replaced by
    the placeholder, and every Picture command would bring an image. Content
    is requested for the empty string itself; and when the content provider
    fails, a Picture command ends with its exception and nothing is sent. *)
Lemma generate_empty_name_counterexample :
  requested (@_generate demo (pending [] [generate_42 BOTH (PStr "")])).2 = [PStr ""] /\
  requested (@_generate demo (pending [] [generate_42 BOTH (PStr "")])).2 <>
    [PStr placeholder_name] /\
  (@_generate (scripted false true true)
     (scripted_pending false true true [generate_42 PICTURE (PStr "A")])).1.1 =
    Raise (OtherException "parse") /\
  outbound (@_generate (scripted false true true)
              (scripted_pending false true true [generate_42 PICTURE (PStr "A")])).2 = [].
Proof. repeat split; try reflexivity. vm_compute. discriminate. Qed.

(** C9 as the specification states it: the generation step would run even
    when the polling step raises. A Start command makes [_polling] raise
    [NameError]; the cycle ends there, the generation command stays in its
    queue and no content is requested. *)
Lemma generation_skipped_counterexample :
  (@_polling demo (pending [start_42] [generate_42 BOTH (PStr "A")])).1.1 =
    Raise (NameError "repeat_delay") /\
  (@callback_checker demo (pending [start_42] [generate_42 BOTH (PStr "A")])).1.1 =
    Raise (NameError "repeat_delay") /\
  GENERATE_QUEUE (@callback_checker demo (pending [start_42] [generate_42 BOTH (PStr "A")])).1.2 =
    [generate_42 BOTH (PStr "A")] /\
  (@callback_checker demo (pending [start_42] [generate_42 BOTH (PStr "A")])).2 = [] /\
  ~ generation_ran (pending [start_42] [generate_42 BOTH (PStr "A")])
      (@callback_checker demo (pending [start_42] [generate_42 BOTH (PStr "A")])).1.2.
Proof. repeat split; try reflexivity. vm_compute. discriminate. Qed.

(** ** Further properties at concrete inputs *)

Lemma half_started_tenant_is_stuck_witness :
  active (run [PutPolling (mkPollingInfo "42" STOP (mkCommandInfo None None)); Cycle;
               PutPolling start_42; Cycle; Wake 0%nat] half_started_42) "42" = false /\
  chat_to_job (run [PutPolling (mkPollingInfo "42" STOP (mkCommandInfo None None)); Cycle;
                    PutPolling start_42; Cycle; Wake 0%nat] half_started_42) !! "42"
    = Some 0%nat.
Proof.
  destruct (@half_started_tenant_is_stuck demo
              [PutPolling (mkPollingInfo "42" STOP (mkCommandInfo None None)); Cycle;
               PutPolling start_42; Cycle; Wake 0%nat]
              half_started_42 "42" 0%nat eq_refl eq_refl)
    as (Hjob & _ & Hinactive).
  split; [exact Hinactive | exact Hjob].
Defined.

Lemma tenant_AB_paired : paired (tenant_AB Suspended).
Proof.
  intros chat_id. unfold contains. cbn.
  destruct (decide (chat_id = "42")) as [->|Hne].
  - reflexivity.
  - rewrite !lookup_singleton_ne; [reflexivity | congruence | congruence].
Defined.

Lemma stop_and_configure_keep_pairing_witness :
  paired (tenant_AB Suspended) /\
  paired (@_stop_task demo "42" (tenant_AB Suspended)).1.2 /\
  paired (@_names demo "42" (Some "{}") (tenant_AB Suspended)).1.2 /\
  paired (@_repeat_delay demo "42" (Some "2h") (tenant_AB Suspended)).1.2.
Proof.
  split; [exact tenant_AB_paired|].
  destruct (@stop_and_configure_keep_pairing demo (tenant_AB Suspended) "42" (Some "{}")
              tenant_AB_paired) as (Hstop & Hnames & _).
  destruct (@stop_and_configure_keep_pairing demo (tenant_AB Suspended) "42" (Some "2h")
              tenant_AB_paired) as (_ & _ & Hdelay).
  split; [exact Hstop|]. split; [exact Hnames | exact Hdelay].
Defined.

Lemma sender_dispatch_cycle_witness :
  requested (wake_events 0%nat 2%nat (tenant_42 names_with_gap Created)) =
    [PStr placeholder_name] /\
  requested (wake_events 0%nat 4%nat (tenant_42 names_with_gap Created)) = [] /\
  requested (wake_events 0%nat 5%nat (tenant_42 names_with_gap Created)) = [] /\
  requested (wake_events 0%nat 6%nat (tenant_42 names_with_gap Created)) = [PStr "A"].
Proof.
  assert (runner_at (tenant_42 names_with_gap Created) 0%nat "42" names_with_gap None)
    as Hrunner.
  { split.
    - eexists. split; [reflexivity|]. split; [reflexivity | by right].
    - eexists. split; reflexivity. }
  split; [|split; [|split]].
  - exact (proj1 (@sender_dispatch_cycle demo _ 0%nat "42" names_with_gap 2%nat Hrunner)).
  - exact (proj1 (@sender_dispatch_cycle demo _ 0%nat "42" names_with_gap 4%nat Hrunner)).
  - exact (proj1 (@sender_dispatch_cycle demo _ 0%nat "42" names_with_gap 5%nat Hrunner)).
  - exact (proj1 (@sender_dispatch_cycle demo _ 0%nat "42" names_with_gap 6%nat Hrunner)).
Defined.


Lemma wake_sleeps_once_with_current_delay_witness :
  count_sleeps (@sender_wake demo 0%nat (tenant_AB Suspended)).2 = 1%nat /\
  last (@sender_wake demo 0%nat (tenant_AB Suspended)).2 = Some (EvSleep (PInt 60)) /\
  last (@sender_wake demo 0%nat (orphan_42 Created)).2 = Some (EvSleep (PInt 5)).
Proof.
  destruct (@wake_sleeps_once_with_current_delay demo (tenant_AB Suspended) 0%nat
              (mkTask "42" None PNone Suspended) eq_refl
              (fun outcome H => eq_ind Suspended
                 (fun s => match s with Suspended => True | _ => False end) I _ H))
    as [Hcount Hlast].
  destruct (@wake_sleeps_once_with_current_delay demo (orphan_42 Created) 0%nat
              (mkTask "42" None PNone Created) eq_refl
              (fun outcome H => eq_ind Created
                 (fun s => match s with Created => True | _ => False end) I _ H))
    as [_ Horphan].
  split; [exact Hcount|]. split; [exact Hlast | exact Horphan].
Defined.

Lemma orphaned_runner_ends_witness :
  exists st',
    @sender_wake demo 0%nat (orphan_42 Created) =
      (st', [EvLog DEBUG LogSenderStarted; EvLog DEBUG LogSenderCancelled;
             EvSleep (PInt 5)]) /\
    sender_wake 0%nat st' = (st', []).
Proof.
  destruct (@orphaned_runner_ends demo (orphan_42 Created) 0%nat
              (mkTask "42" None PNone Created) eq_refl
              (fun outcome H => eq_ind Created
                 (fun s => match s with Created => True | _ => False end) I _ H)
              eq_refl)
    as (st' & Hwake & _ & Hagain).
  exists st'. split; [exact Hwake | exact Hagain].
Defined.

Lemma failed_dispatch_is_logged_and_skipped_witness :
  (@sender_wake (scripted false true true) 0%nat
     (scripted_42 false true true names_AB (Some names_AB))).2 =
    [EvLog ERROR (LogName (PStr "A")); EvParse (PStr "A");
     EvLog ERROR (LogUnexpected (OtherException "parse")); EvSleep (PInt 60)] /\
  (@sender_wake (scripted true false true) 0%nat
     (scripted_42 true false true names_AB (Some names_AB))).2 =
    [EvLog ERROR (LogName (PStr "A")); EvParse (PStr "A"); EvSendPhoto "42" demo_image;
     EvLog ERROR (LogUnexpected (OtherException "bot.send_photo")); EvSleep (PInt 60)] /\
  (@sender_wake (scripted true true false) 0%nat
     (scripted_42 true true false names_AB (Some names_AB))).2 =
    [EvLog ERROR (LogName (PStr "A")); EvParse (PStr "A"); EvSendPhoto "42" demo_image;
     EvSendMessage "42" "card";
     EvLog ERROR (LogUnexpected (OtherException "bot.send_message")); EvSleep (PInt 60)] /\
  tasks (@sender_wake (scripted false true true) 0%nat
           (scripted_42 false true true names_AB (Some names_AB))).1 !! 0%nat =
    Some (mkTask "42" (Some [PStr "B"]) (PInt 60) Suspended).
Proof.
  destruct (@failed_dispatch_is_logged_and_skipped (scripted false true true)
              (scripted_42 false true true names_AB (Some names_AB)) 0%nat
              (mkTask "42" (Some names_AB) (PInt 60) Suspended)
              (mkSenderJob (PInt 60) names_AB) (PStr "A") [PStr "B"]
              eq_refl eq_refl eq_refl eq_refl)
    as (Hnext & Hparse & _).
  destruct (@failed_dispatch_is_logged_and_skipped (scripted true false true)
              (scripted_42 true false true names_AB (Some names_AB)) 0%nat
              (mkTask "42" (Some names_AB) (PInt 60) Suspended)
              (mkSenderJob (PInt 60) names_AB) (PStr "A") [PStr "B"]
              eq_refl eq_refl eq_refl eq_refl)
    as (_ & _ & Hphoto & _).
  destruct (@failed_dispatch_is_logged_and_skipped (scripted true true false)
              (scripted_42 true true false names_AB (Some names_AB)) 0%nat
              (mkTask "42" (Some names_AB) (PInt 60) Suspended)
              (mkSenderJob (PInt 60) names_AB) (PStr "A") [PStr "B"]
              eq_refl eq_refl eq_refl eq_refl)
    as (_ & _ & _ & Hmessage).
  split; [exact (Hparse tt eq_refl)|].
  split; [exact (Hphoto demo_image "card" tt tt eq_refl eq_refl)|].
  split; [exact (Hmessage demo_image "card" tt tt tt eq_refl eq_refl eq_refl)|].
  exact Hnext.
Defined.

Lemma generate_failure_drops_command_witness :
  GENERATE_QUEUE (@_generate (scripted false true true)
                    (scripted_pending false true true
                       [generate_42 BOTH (PStr "A"); generate_42 TEXT (PStr "B")])).1.2 =
    [generate_42 TEXT (PStr "B")] /\
  (@_generate (scripted false true true)
     (scripted_pending false true true
        [generate_42 BOTH (PStr "A"); generate_42 TEXT (PStr "B")])).2 =
    [EvParse (PStr "A")] /\
  (@_generate (scripted true false true)
     (scripted_pending true false true [generate_42 BOTH (PStr "A")])).2 =
    [EvParse (PStr "A"); EvSendPhoto "42" demo_image].
Proof.
  destruct (@generate_failure_drops_command (scripted false true true)
              (scripted_pending false true true
                 [generate_42 BOTH (PStr "A"); generate_42 TEXT (PStr "B")])
              (generate_42 BOTH (PStr "A")) [generate_42 TEXT (PStr "B")] eq_refl)
    as (Hqueue & Hparse & _).
  destruct (@generate_failure_drops_command (scripted true false true)
              (scripted_pending true false true [generate_42 BOTH (PStr "A")])
              (generate_42 BOTH (PStr "A")) [] eq_refl)
    as (_ & _ & Hphoto).
  split; [exact Hqueue|]. split; [exact (proj2 (Hparse tt eq_refl))|].
  refine (proj2 (Hphoto demo_image "card" tt tt eq_refl _ eq_refl)).
  discriminate.
Defined.

Lemma configure_active_witness :
  chat_to_setting
    (@_polling demo (tenant_42_queued [configure_42 (Some json_text_AB) (Some "2h")])).1.2
    !! "42" = Some (mkSenderJob (PInt 7200) names_AB) /\
  chat_to_setting
    (@_polling demo (tenant_42_queued [configure_42 (Some "not-json") (Some "2h")])).1.2
    !! "42" = Some (mkSenderJob (PInt 7200) names_AB) /\
  (@_polling demo (tenant_42_queued [configure_42 None (Some "2h")])).1.1 = Raise TypeError /\
  chat_to_setting
    (@_polling demo (tenant_42_queued [configure_42 None (Some "2h")])).1.2
    !! "42" = Some (mkSenderJob (PInt 60) names_AB) /\
  (@_polling demo (tenant_42_queued [configure_42 (Some json_text_deep) (Some "2h")])).1.1 =
    Raise RecursionError /\
  (@_polling demo (tenant_42_queued [configure_42 (Some json_text_deep) (Some "2h")])).2 = [] /\
  chat_to_setting
    (@_polling demo (tenant_42_queued [configure_42 (Some json_text_deep) (Some "2h")])).1.2
    !! "42" = Some (mkSenderJob (PInt 60) names_AB).
Proof.
  destruct (@configure_active demo
              (tenant_42_queued [configure_42 (Some json_text_AB) (Some "2h")])
              (configure_42 (Some json_text_AB) (Some "2h")) []
              (mkSenderJob (PInt 60) names_AB) eq_refl eq_refl eq_refl eq_refl)
    as (Haccepted & _).
  destruct (@configure_active demo
              (tenant_42_queued [configure_42 (Some "not-json") (Some "2h")])
              (configure_42 (Some "not-json") (Some "2h")) []
              (mkSenderJob (PInt 60) names_AB) eq_refl eq_refl eq_refl eq_refl)
    as (_ & Hrejected & _).
  destruct (@configure_active demo
              (tenant_42_queued [configure_42 None (Some "2h")])
              (configure_42 None (Some "2h")) []
              (mkSenderJob (PInt 60) names_AB) eq_refl eq_refl eq_refl eq_refl)
    as (_ & _ & _ & Habsent & _).
  destruct (@configure_active demo
              (tenant_42_queued [configure_42 (Some json_text_deep) (Some "2h")])
              (configure_42 (Some json_text_deep) (Some "2h")) []
              (mkSenderJob (PInt 60) names_AB) eq_refl eq_refl eq_refl eq_refl)
    as (_ & _ & _ & _ & Hraised).
  split; [exact (proj2 (proj2 (Haccepted names_AB eq_refl)))|].
  split; [exact (proj2 (Hrejected (PStr "not-json") tt eq_refl eq_refl))|].
  destruct (Habsent eq_refl) as (Hresult & _ & Hsetting).
  split; [exact Hresult|]. split; [exact Hsetting|].
  exact (Hraised RecursionError eq_refl).
Defined.


Lemma polling_leaves_other_tenants_witness :
  chat_to_job
    (@_polling demo
       (tenant_42_queued [mkPollingInfo "7" START (mkCommandInfo None None)])).1.2 !! "42"
    = Some 0%nat /\
  chat_to_setting
    (@_polling demo
       (tenant_42_queued [mkPollingInfo "7" START (mkCommandInfo None None)])).1.2 !! "42"
    = Some (mkSenderJob (PInt 60) names_AB).
Proof.
  refine (@polling_leaves_other_tenants demo
            (tenant_42_queued [mkPollingInfo "7" START (mkCommandInfo None None)])
            (mkPollingInfo "7" START (mkCommandInfo None None)) [] "42" eq_refl _).
  discriminate.
Defined.

Lemma cycles_drain_in_order_witness :
  POLLING_QUEUE
    (@cycles demo 2%nat
       (pending [start_42; configure_42 None None; start_42]
                [generate_42 TEXT (PStr "A"); generate_42 TEXT (PStr "B")])) = [start_42] /\
  GENERATE_QUEUE
    (@cycles demo 2%nat
       (pending [start_42; configure_42 None None; start_42]
                [generate_42 TEXT (PStr "A"); generate_42 TEXT (PStr "B")])) =
    [generate_42 TEXT (PStr "A"); generate_42 TEXT (PStr "B")] /\
  GENERATE_QUEUE
    (@cycles demo 2%nat
       (pending [] [generate_42 TEXT (PStr "A"); generate_42 TEXT (PStr "B");
                    generate_42 TEXT (PStr "C")])) = [generate_42 TEXT (PStr "C")].
Proof.
  split; [|split].
  - exact (proj1 (@cycles_drain_in_order demo 2%nat
                    (pending [start_42; configure_42 None None; start_42]
                             [generate_42 TEXT (PStr "A"); generate_42 TEXT (PStr "B")]))).
  - exact (proj1 (proj2 (@cycles_drain_in_order demo 2%nat
                    (pending [start_42; configure_42 None None; start_42]
                             [generate_42 TEXT (PStr "A"); generate_42 TEXT (PStr "B")])))).
  - exact (proj1 (proj2 (@cycles_drain_in_order demo 2%nat
                           (pending [] [generate_42 TEXT (PStr "A");
                                        generate_42 TEXT (PStr "B");
                                        generate_42 TEXT (PStr "C")])))).
Defined.

Lemma messages_go_to_their_tenant_witness :
  Forall (addressed_to "42")
    (@sender_wake (scripted true true true) 0%nat
       (scripted_42 true true true names_AB (Some names_AB))).2 /\
  Forall (addressed_to "42")
    (@_generate demo (pending [] [generate_42 BOTH (PStr "A")])).2 /\
  Forall (addressed_to "42")
    (@_polling demo (pending [configure_42 (Some "not-json") None] [])).2.
Proof.
  split; [|split].
  - exact (proj1 (@messages_go_to_their_tenant (scripted true true true)
                    (scripted_42 true true true names_AB (Some names_AB)))
             0%nat _ eq_refl).
  - exact (proj1 (proj2 (@messages_go_to_their_tenant demo
                           (pending [] [generate_42 BOTH (PStr "A")])))
             (generate_42 BOTH (PStr "A")) [] eq_refl).
  - exact (proj2 (proj2 (@messages_go_to_their_tenant demo
                           (pending [configure_42 (Some "not-json") None] [])))
             (configure_42 (Some "not-json") None) [] eq_refl).
Defined.
